(** * twitter-api: the streaming fan-out client, embedded and verified

    A shallow embedding of the Go package [twitter] (stream.go and the
    file holding [Client], [Tweet] and [convertToTweet]).

    - Go [string] is [string]; Go [int] is [Z] (values are only copied
      and compared with constants, never computed with).
    - A slice is a [list]; the [nil] slice and the empty slice are both
      [nil], as the code only ranges over them and takes [len].
    - A channel is a reference: [chan] is [option nat], [None] being
      the Go [nil] channel and [Some n] the n-th channel made.
    - A method of [*Client] is a state-passing computation over a
      [State] (the client struct and the world around it); a call
      that can panic returns a [Result].
    - A goroutine started with [go] is recorded as an effect and its
      body is a computation of its own; the interleaving of the
      client's callers and goroutines is a step function on
      configurations, with the scheduler's choice as the label. *)

From Stdlib Require Import String List ZArith Bool Lia DecimalString.
Import ListNotations.

Local Open Scope Z_scope.
Local Open Scope list_scope.

(** ** Data model *)

(** Go's [error], carried as its message. *)
Definition error := string.

(** [StreamRule] (stream.go): a rule of the filtered stream. *)
Record StreamRule := mkStreamRule {
  rule_ID : string;   (* ID   string `json:",omitempty"` *)
  rule_Rule : string  (* Rule string `json:"value"`      *)
}.

(** [PollOption]. *)
Record PollOption := mkPollOption {
  opt_Position : Z;
  opt_Label : string;
  opt_Votes : Z
}.

(** [Author]. *)
Record Author := mkAuthor {
  Name : string;
  Handle : string;
  Picture : string;
  Verified : bool;
  author_ID : string
}.

(** [Tweet]: the event handed to subscribers. *)
Record Tweet := mkTweet {
  ID : string;
  Text : string;
  TweetAuthor : Author;
  Created : string;
  Images : list string;
  Retweets : Z;
  Replies : Z;
  Likes : Z;
  Quotes : Z;
  RuleIDs : list string;
  HasVideo : bool;
  VideoPreviewURL : string;
  Sensitive : bool;
  Poll : list PollOption
}.

(** [metrics], [attachments], [tweet], [user], [media], the poll entry
    of [includes], and [includes]: the shapes of the API's JSON. *)
Record metrics := mkMetrics {
  m_Retweets : Z;
  m_Replies : Z;
  m_Likes : Z;
  m_Quotes : Z
}.

Record attachments := mkAttachments {
  MediaKeys : list string;
  PollIDs : list string
}.

Record tweet := mk_tweet {
  AuthorID : string;
  t_Text : string;
  t_ID : string;
  CreatedAt : string;
  Metrics : metrics;
  Attachments : attachments;
  t_Sensitive : bool
}.

Record user := mkUser {
  u_ID : string;
  u_Name : string;
  u_Handle : string;
  u_Picture : string;
  u_Verified : bool
}.

Record media := mkMedia {
  MediaKey : string;
  Type_ : string;
  URL : string;
  VideoPreviewImageURL : string
}.

Record poll := mkPoll {
  Options : list PollOption;
  p_ID : string
}.

Record includes := mkIncludes {
  Users : list user;
  Media : list media;
  Polls : list poll
}.

(** The zero values Go gives to [var author Author] and to a
    [Tweet]'s media fields. *)
Definition zeroAuthor : Author := mkAuthor EmptyString EmptyString EmptyString false EmptyString.

(** ** convertToTweet *)

(** The first loop: the first user whose ID is the tweet's author ID
    fills the author, then [break]. *)
Fixpoint findAuthor (users : list user) (authorID : string) : Author :=
  match users with
  | [] => zeroAuthor
  | u :: rest =>
      if String.eqb (u_ID u) authorID
      then mkAuthor (u_Name u) (u_Handle u) (u_Picture u) (u_Verified u) (u_ID u)
      else findAuthor rest authorID
  end.

(** The three variables the media loops assign. *)
Record mediaAcc := mkMediaAcc {
  images : list string;
  hasVideo : bool;
  videoPreview : string
}.

(** The [switch mediaItem.Type] of the inner loop body. *)
Definition mediaSwitch (acc : mediaAcc) (item : media) : mediaAcc :=
  if String.eqb (Type_ item) "photo"
  then mkMediaAcc (images acc ++ [URL item]) (hasVideo acc) (videoPreview acc)
  else if String.eqb (Type_ item) "video"
  then mkMediaAcc (images acc) true (VideoPreviewImageURL item)
  else acc.

(** The inner loop over [incl.Media] for one media key. *)
Fixpoint mediaInner (mediaKey : string) (items : list media) (acc : mediaAcc)
  : mediaAcc :=
  match items with
  | [] => acc
  | item :: rest =>
      mediaInner mediaKey rest
        (if String.eqb mediaKey (MediaKey item) then mediaSwitch acc item else acc)
  end.

(** The outer loop over [tweet.Attachments.MediaKeys]. *)
Fixpoint mediaOuter (keys : list string) (items : list media) (acc : mediaAcc)
  : mediaAcc :=
  match keys with
  | [] => acc
  | k :: rest => mediaOuter rest items (mediaInner k items acc)
  end.

(** The inner loop over [incl.Polls] for one poll ID: every match
    overwrites [pollOptions]. *)
Fixpoint pollInner (pollID : string) (polls : list poll) (acc : list PollOption)
  : list PollOption :=
  match polls with
  | [] => acc
  | p :: rest =>
      pollInner pollID rest (if String.eqb (p_ID p) pollID then Options p else acc)
  end.

(** The outer loop over [tweet.Attachments.PollIDs]. *)
Fixpoint pollOuter (ids : list string) (polls : list poll) (acc : list PollOption)
  : list PollOption :=
  match ids with
  | [] => acc
  | i :: rest => pollOuter rest polls (pollInner i polls acc)
  end.

(** [convertToTweet]; [matches] is the pointer argument, [None] for
    [nil]. The result type is [Tweet]: the function has no error
    result and no panicking operation. *)
Definition convertToTweet (tw : tweet) (incl : includes)
           (matches : option (list StreamRule)) : Tweet :=
  let author := findAuthor (Users incl) (AuthorID tw) in
  let acc := mediaOuter (MediaKeys (Attachments tw)) (Media incl)
                        (mkMediaAcc [] false EmptyString) in
  let pollOptions := pollOuter (PollIDs (Attachments tw)) (Polls incl) [] in
  let rules := match matches with
               | None => []
               | Some ms => map rule_ID ms
               end in
  {| ID := t_ID tw;
     Text := t_Text tw;
     TweetAuthor := author;
     Created := CreatedAt tw;
     Images := images acc;
     Retweets := m_Retweets (Metrics tw);
     Replies := m_Replies (Metrics tw);
     Likes := m_Likes (Metrics tw);
     Quotes := m_Quotes (Metrics tw);
     RuleIDs := rules;
     HasVideo := hasVideo acc;
     VideoPreviewURL := videoPreview acc;
     Sensitive := t_Sensitive tw;
     Poll := pollOptions |}.

(** ** The wire: requests, responses, rule payloads *)

(** [streamResponse]: one record of the stream. *)
Record streamResponse := mkStreamResponse {
  sr_Tweet : tweet;
  sr_Includes : includes;
  sr_Matches : list StreamRule
}.

(** [streamRuleResponse]: the answer of the rules endpoint. [Errors]
    holds the rule a duplicate was detected against. *)
Record streamRuleResponse := mkStreamRuleResponse {
  Rules : list StreamRule;
  Created_ : Z;       (* Meta.Summary.Created    *)
  NotCreated : Z;     (* Meta.Summary.NotCreated *)
  Errors : list StreamRule
}.

(** The JSON body of a request, kept structured: [reqBody["add"]] of
    [CreateStreamRule], [reqBody.Delete.Ids] of [DeleteStreamRules]. *)
Inductive RequestBody :=
| NoBody
| AddBody (add : list StreamRule)
| DeleteBody (ids : list string).

(** What the code puts into an [http.Request]. *)
Record Request := mkRequest {
  Method : string;
  ReqURL : string;
  ReqBody : RequestBody;
  ContentType : option string;
  Authorization : option string
}.

(** [resp.Body], by what the code does with it: [ioutil.ReadAll] gives
    its bytes or an error, [json.NewDecoder(body).Decode] into a
    [streamRuleResponse] gives the decoded value or an error. *)
Record body := mkBody {
  readAll : error + string;
  decodeRules : error + streamRuleResponse
}.

(** The part of an [http.Response] the code looks at. *)
Record Response := mkResponse {
  StatusCode : Z;
  Body : body
}.

Definition apiRoot : string := "https://api.twitter.com/2".

Definition expansionsAndFields : string :=
  ("expansions=author_id,attachments.media_keys,attachments.poll_ids" ++
   "&tweet.fields=author_id,created_at,text,public_metrics,possibly_sensitive" ++
   "&user.fields=profile_image_url,verified" ++
   "&media.fields=type,url,media_key,preview_image_url")%string.

Definition StatusOK : Z := 200.
Definition StatusCreated : Z := 201.

(** ** Channels, subscriptions, the client *)

(** A channel value: [None] is the nil channel, [Some n] the n-th
    channel returned by [make]. Two channel values are [==] in Go
    exactly when they are the same reference. *)
Definition chan := option nat.

(** [StreamSubscription]. *)
Record StreamSubscription := mkSub {
  Tweets : chan;
  Rule : StreamRule
}.

(** [Client]; the mutex, the logger and the two channels made by
    [New] are fixed for the client's life and carry no field here. *)
Record Client := mkClient {
  Token : string;
  streamSubscribers : list StreamSubscription;
  streaming : bool;
  EnableAllTweetsChannel : bool
}.

(** [New]. *)
Definition New (token : string) : Client := mkClient token [] false false.

(** A line handed to [tw.logger]: the format or prefix, and the value
    printed with it. *)
Inductive LogLine :=
| LogMsg (msg : string)
| LogRule (msg : string) (r : StreamRule)
| LogErr (msg : string) (e : error).

(** The goroutine bodies the code starts with [go]. *)
Inductive Goroutine :=
| GoCleanup (ruleIsOrphaned : bool) (rule : StreamRule) (* UnsubscribeStream *)
| GoStream                                               (* StartStream *)
| GoDecode                                               (* stream, the decode loop *)
| GoFanOut.                                              (* stream, the forwarding loop *)

(** What a call does to the world outside the [Client] struct, in
    program order. A channel send is recorded when it is issued; an
    unbuffered send completes when the receiver takes it. *)
Inductive Effect :=
| ELog (l : LogLine)                (* tw.logger.Println / Printf *)
| ERequest (r : Request)            (* http client Do             *)
| EGo (g : Goroutine)               (* go func() ... / go tw.stream() *)
| ESendStop                         (* tw.stopStreamChan <- true  *)
| ESendErr (e : error)              (* errChan <- err             *)
| ESendAll (t : Tweet)              (* tw.StreamedTweets <- tweet *)
| ESendTweet (t : Tweet)            (* tweetChan <- tweet         *)
| ECloseTweetChan                   (* close(tweetChan)           *)
| ESend (c : chan) (t : Tweet)      (* sub.Tweets <- tweet        *)
| EClose (c : chan)                 (* close(c)                   *)
| ECloseBody                        (* resp.Body.Close()          *)
| ECancelRequest.                   (* cancelRequest()            *)

(** A call returns or panics. *)
Inductive Result (A : Type) :=
| Ok (a : A)
| Panic (msg : string).
Arguments Ok {A} a.
Arguments Panic {A} msg.

(** Decidable equality of the data that Go compares with [==]. *)
Definition rule_eqb (a b : StreamRule) : bool :=
  String.eqb (rule_ID a) (rule_ID b) && String.eqb (rule_Rule a) (rule_Rule b).

Definition chan_eqb (a b : chan) : bool :=
  match a, b with
  | None, None => true
  | Some x, Some y => Nat.eqb x y
  | _, _ => false
  end.

(** [subToRemove == sub] on [StreamSubscription]: the same channel and
    equal rules. *)
Definition sub_eqb (a b : StreamSubscription) : bool :=
  chan_eqb (Tweets a) (Tweets b) && rule_eqb (Rule a) (Rule b).

(** The pure core of the fan-out loops of [stream] (the two nested
    [for ... range] loops): one [sub.Tweets <- tweet] for every
    subscriber, in order, and every entry of [tweet.RuleIDs] equal to
    the subscriber's rule ID. *)
Definition sendsTo (sub : StreamSubscription) (t : Tweet) : list Effect :=
  flat_map (fun m => if String.eqb m (rule_ID (Rule sub))
                     then [ESend (Tweets sub) t] else [])
           (RuleIDs t).

Definition deliver (subs : list StreamSubscription) (t : Tweet) : list Effect :=
  flat_map (fun sub => sendsTo sub t) subs.

(** The search loop of [UnsubscribeStream]: [i] is the loop index,
    [index] and [ruleIsOrphaned] the two variables it assigns; the
    recursion stops early where the loop has its [break]. *)
Fixpoint scanSubscribers (subToRemove : StreamSubscription)
         (subs : list StreamSubscription) (i index : Z) (ruleIsOrphaned : bool)
  : Z * bool :=
  match subs with
  | [] => (index, ruleIsOrphaned)
  | sub :: rest =>
      let index' := if sub_eqb subToRemove sub then i else index in
      let orphaned' :=
        if sub_eqb subToRemove sub then ruleIsOrphaned
        else if String.eqb (rule_ID (Rule subToRemove)) (rule_ID (Rule sub))
             then false else ruleIsOrphaned in
      if negb (index' =? -1) && negb orphaned'
      then (index', orphaned')
      else scanSubscribers subToRemove rest (i + 1) index' orphaned'
  end.

(** [append(subs[:index], subs[index+1:]...)]. *)
Definition removeAt (index : Z) (subs : list StreamSubscription)
  : list StreamSubscription :=
  firstn (Z.to_nat index) subs ++ skipn (Z.to_nat (index + 1)) subs.

(** The string [CreateStreamRule] builds from its options. *)
Fixpoint ruleBuilder (options : list string) : string :=
  match options with
  | [] => EmptyString
  | option :: rest => (" " ++ option ++ ruleBuilder rest)%string
  end.

Definition rulesURL : string := (apiRoot ++ "/tweets/search/stream/rules")%string.

Definition streamURL : string :=
  (apiRoot ++ "/tweets/search/stream?" ++ expansionsAndFields)%string.

(** The life of one run of [stream]: started by [go tw.stream()] and
    waiting for the answer to its request; blocked in the [select];
    returned, with its deferred calls run. *)
Inductive Phase := Connecting | Selecting | Stopped.


(** What the [select] at the end of [stream] receives. *)
Inductive Selected :=
| SelErr (e : error)   (* case err = <-errChan      *)
| SelStop.             (* case <-tw.stopStreamChan  *)

(** A call of the subscription manager, for sequences of calls. *)
Inductive Call :=
| CallSubscribe (rule : StreamRule)
| CallUnsubscribe (s : StreamSubscription).

(** What a sequence of calls looks like from outside: the subscription
    a [SubscribeStream] returned, the subscription an
    [UnsubscribeStream] was given. *)
Inductive Happened :=
| Subscribed (s : StreamSubscription)
| Unsubscribed (s : StreamSubscription).

(** The moves of the client's goroutines and callers. *)
Inductive Label :=
| LSubscribe (rule : StreamRule)          (* a SubscribeStream call            *)
| LUnsubscribe (s : StreamSubscription)   (* an UnsubscribeStream call, up to
                                             its stop send when it has one     *)
| LStopTaken (i : nat)                    (* run i takes the stop of the
                                             waiting UnsubscribeStream         *)
| LStartStream                            (* a StartStream call                *)
| LStopStream (i : nat)                   (* a StopStream call, taken by run i *)
| LConnect (i : nat)                      (* run i gets its request answered   *)
| LDecodeError (i : nat) (e : error).     (* run i takes e from errChan        *)

(** ** The methods of [*Client] *)

Section Methods.

(** The remote side, and the library call the code leaves the package
    with: [http.Client.Do], which answers a request and moves the
    remote side on. *)
Context {Remote : Type}.
Variable Do : Request -> Remote -> (error + Response) * Remote.

(** The client struct and the world around it: the remote side, the
    channels made and closed so far, and the effects so far, oldest
    first. *)
Record State := mkState {
  client : Client;
  remote : Remote;
  made : nat;
  closed : list nat;
  trace : list Effect
}.

(** A method call: it returns or panics, and leaves a state either
    way (a panic does not undo the assignments before it). *)
Definition IO (A : Type) : Type := State -> Result A * State.

Definition ret {A : Type} (a : A) : IO A := fun st => (Ok a, st).

Definition bind {A B : Type} (m : IO A) (k : A -> IO B) : IO B :=
  fun st =>
    match m st with
    | (Ok a, st') => k a st'
    | (Panic msg, st') => (Panic msg, st')
    end.

Notation "x <- m ;; k" := (bind m (fun x => k))
  (at level 61, m at next level, right associativity).
Notation "m ;; k" := (bind m (fun _ => k))
  (at level 61, right associativity).

Definition panic {A : Type} (msg : string) : IO A := fun st => (Panic msg, st).

Definition getClient : IO Client := fun st => (Ok (client st), st).

Definition setClient (tw : Client) : IO unit :=
  fun st => (Ok tt, mkState tw (remote st) (made st) (closed st) (trace st)).

Definition emit (e : Effect) : IO unit :=
  fun st => (Ok tt, mkState (client st) (remote st) (made st) (closed st)
                            (trace st ++ [e])).

Fixpoint emitAll (es : list Effect) : IO unit :=
  match es with
  | [] => ret tt
  | e :: rest => emit e ;; emitAll rest
  end.

Definition logln (l : LogLine) : IO unit := emit (ELog l).

(** [make(chan Tweet)]: a channel no earlier [make] returned. *)
Definition makeChan : IO chan :=
  fun st => (Ok (Some (made st)),
             mkState (client st) (remote st) (S (made st)) (closed st) (trace st)).

(** [close(c)]: panics on the nil channel and on a closed one. *)
Definition closeChan (c : chan) : IO unit :=
  match c with
  | None => panic "close of nil channel"
  | Some n =>
      fun st =>
        if existsb (Nat.eqb n) (closed st)
        then (Panic "close of closed channel", st)
        else (Ok tt, mkState (client st) (remote st) (made st) (n :: closed st)
                             (trace st ++ [EClose c]))
  end.

(** [client.Do(request)]. *)
Definition httpDo (req : Request) : IO (error + Response) :=
  fun st =>
    let (r, remote') := Do req (remote st) in
    (Ok r, mkState (client st) remote' (made st) (closed st)
                   (trace st ++ [ERequest req])).

(** [authenticatedTwitterRequest]: sets the Authorization header and
    sends the request. *)
Definition authenticatedTwitterRequest (request : Request)
  : IO (error + Response) :=
  tw <- getClient ;;
  httpDo (mkRequest (Method request) (ReqURL request) (ReqBody request)
                    (ContentType request)
                    (Some ("Bearer " ++ Token tw)%string)).

(** [s[0]], which panics on an empty slice. *)
Definition first (rules : list StreamRule) : IO (StreamRule * option error) :=
  match rules with
  | [] => panic "index out of range [0] with length 0"
  | r :: _ => ret (r, None)
  end.

(** [CreateStreamRule]. [http.NewRequest] is given a constant method
    and URL and cannot fail, so its error branch has no case here. The
    named results [rule, err] are the pair returned. *)
Definition CreateStreamRule (options : list string)
  : IO (StreamRule * option error) :=
  let rule := mkStreamRule EmptyString (ruleBuilder options) in
  result <- authenticatedTwitterRequest
              (mkRequest "POST" rulesURL (AddBody [rule])
                         (Some "application/json"%string) None) ;;
  match result with
  | inl err => ret (rule, Some err)
  | inr resp =>
      if negb (StatusCode resp =? StatusCreated)
      then ret (rule, Some "failed to create rule"%string)
      else
        match decodeRules (Body resp) with
        | inl err =>
            logln (LogErr "Failed to Unmarshal json: %s" err) ;;
            ret (rule, Some err)
        | inr streamRuleResponse =>
            if negb (Created_ streamRuleResponse =? 1)
               && (0 <? Z.of_nat (length (Errors streamRuleResponse)))
            then first (Errors streamRuleResponse)
            else first (Rules streamRuleResponse)
        end
  end.

(** [DeleteStreamRules]. *)
Definition DeleteStreamRules (rules : list StreamRule) : IO (option error) :=
  result <- authenticatedTwitterRequest
              (mkRequest "POST" rulesURL (DeleteBody (map rule_ID rules))
                         (Some "application/json"%string) None) ;;
  match result with
  | inl err => ret (Some err)
  | inr resp =>
      match readAll (Body resp) with
      | inl err => ret (Some err)
      | inr data =>
          if negb (StatusCode resp =? StatusOK)
          then ret (Some ("failed to delete rule. Response: " ++ data)%string)
          else ret None
      end
  end.

(** [DeleteStreamRule]. *)
Definition DeleteStreamRule (rule : StreamRule) : IO (option error) :=
  DeleteStreamRules [rule].

Definition setSubscribers (subs : list StreamSubscription) : IO unit :=
  tw <- getClient ;;
  setClient (mkClient (Token tw) subs (streaming tw) (EnableAllTweetsChannel tw)).

Definition setStreaming (b : bool) : IO unit :=
  tw <- getClient ;;
  setClient (mkClient (Token tw) (streamSubscribers tw) b (EnableAllTweetsChannel tw)).

(** [SubscribeStream]. *)
Definition SubscribeStream (rule : StreamRule) : IO StreamSubscription :=
  results <- makeChan ;;
  let sub := mkSub results rule in
  tw <- getClient ;;
  setSubscribers (streamSubscribers tw ++ [sub]) ;;
  ret sub.

(** The body of the goroutine [UnsubscribeStream] starts; it captures
    [ruleIsOrphaned] and [subToRemove.Rule]. *)
Definition orphanCleanup (ruleIsOrphaned : bool) (rule : StreamRule) : IO unit :=
  if ruleIsOrphaned
  then
    logln (LogRule "removing orphaned rule " rule) ;;
    err <- DeleteStreamRule rule ;;
    match err with
    | Some e => logln (LogErr "Failed to remove orphaned rule: %s" e)
    | None => ret tt
    end
  else logln (LogRule "keeping rule " rule).

(** [UnsubscribeStream] from its first line to its [go] statement:
    the search, the removal, the start of the cleanup goroutine. *)
Definition unsubscribeRemove (subToRemove : StreamSubscription) : IO unit :=
  tw <- getClient ;;
  let '(index, ruleIsOrphaned) :=
    scanSubscribers subToRemove (streamSubscribers tw) 0 (-1) true in
  (if negb (index =? -1)
   then setSubscribers (removeAt index (streamSubscribers tw))
   else ret tt) ;;
  emit (EGo (GoCleanup ruleIsOrphaned (Rule subToRemove))).

(** [UnsubscribeStream] up to the send on [tw.stopStreamChan]; the
    result tells whether that send is next. *)
Definition unsubscribeLocked (subToRemove : StreamSubscription) : IO bool :=
  unsubscribeRemove subToRemove ;;
  tw <- getClient ;;
  if Z.of_nat (length (streamSubscribers tw)) =? 0
  then logln (LogMsg "no subs left, sending stop") ;; ret true
  else ret false.

(** [UnsubscribeStream]. The send on the unbuffered [stopStreamChan]
    is recorded where the code issues it; it completes when a run of
    [stream] takes it in its [select] (see [step]). *)
Definition UnsubscribeStream (subToRemove : StreamSubscription) : IO unit :=
  sendStop <- unsubscribeLocked subToRemove ;;
  (if sendStop : bool then emit ESendStop else ret tt) ;;
  closeChan (Tweets subToRemove).

(** [StartStream]. *)
Definition StartStream : IO unit :=
  tw <- getClient ;;
  if negb (streaming tw)
  then
    setStreaming true ;;
    logln (LogMsg "starting stream") ;;
    emit (EGo GoStream)
  else ret tt.

(** [StopStream]. *)
Definition StopStream : IO unit := emit ESendStop.

(** [stream] from its first line to the answer to its request: [None]
    when the request failed and the function returns.
    [http.NewRequestWithContext] is given a constant method and URL
    and cannot fail. *)
Definition streamConnect : IO (option Response) :=
  logln (LogMsg "Stream()") ;;
  r <- authenticatedTwitterRequest (mkRequest "GET" streamURL NoBody None None) ;;
  match r with
  | inl err => logln (LogErr "failed to fetch stream %s" err) ;; ret None
  | inr resp => ret (Some resp)
  end.

(** The deferred calls of [stream], in the order they run (last
    deferred first): [resp.Body.Close()] when the request was
    answered, [cancelRequest()], [tw.streaming = false], the log
    line. *)
Definition streamDeferred (connected : bool) : IO unit :=
  (if connected then emit ECloseBody else ret tt) ;;
  emit ECancelRequest ;;
  setStreaming false ;;
  logln (LogMsg "stop streaming").

(** The [select] of [stream], given what it receives. *)
Definition streamSelect (sel : Selected) : IO unit :=
  match sel with
  | SelErr err => logln (LogErr "[Stream] got error, exiting: " err)
  | SelStop => logln (LogMsg "[Stream] got stop signal, exiting...")
  end.

(** [stream], given what its [select] receives if it gets there. *)
Definition stream (sel : Selected) : IO unit :=
  r <- streamConnect ;;
  match r with
  | None => streamDeferred false
  | Some _ =>
      emit (EGo GoDecode) ;;
      emit (EGo GoFanOut) ;;
      streamSelect sel ;;
      streamDeferred true
  end.

(** The decode goroutine of [stream]. [records] is what
    [decoder.More()] and [decoder.Decode(&result)] give: for every
    record, the value left in [result] (zero or partly filled when the
    decoding fails) and the error. [selecting] tells whether the
    [select] of [stream] is still there to take a value from
    [errChan]: it takes at most one, and a send that nobody takes
    blocks the goroutine for good. *)
Fixpoint decodeLoop (records : list (streamResponse * option error))
         (selecting : bool) : IO unit :=
  match records with
  | [] => emit ECloseTweetChan
  | (result, err) :: rest =>
      match err, selecting with
      | Some e, false => emit (ESendErr e)
      | _, _ =>
          (match err with
           | Some e => emit (ESendErr e)
           | None => ret tt
           end) ;;
          let tweet := convertToTweet (sr_Tweet result) (sr_Includes result)
                                      (Some (sr_Matches result)) in
          tw <- getClient ;;
          (if EnableAllTweetsChannel tw then emit (ESendAll tweet) else ret tt) ;;
          emit (ESendTweet tweet) ;;
          decodeLoop rest (match err with Some _ => false | None => selecting end)
      end
  end.

(** One turn of the forwarding goroutine of [stream]: the tweet taken
    from [tweetChan] is sent to the matching subscribers. *)
Definition fanOut (t : Tweet) : IO unit :=
  tw <- getClient ;;
  emitAll (deliver (streamSubscribers tw) t).

(** The forwarding goroutine on the tweets [tweetChan] carried. *)
Fixpoint forward (tweets : list Tweet) : IO unit :=
  match tweets with
  | [] => ret tt
  | t :: rest => fanOut t ;; forward rest
  end.

(** The state a computation leaves, and the effects it adds. *)
Definition after {A : Type} (m : IO A) (st : State) : State := snd (m st).

Definition effectsOf {A : Type} (m : IO A) (st : State) : list Effect :=
  skipn (length (trace st)) (trace (after m st)).

(** A sequence of calls of the subscription manager, one after the
    other. A call that panics has made its assignments; the caller is
    taken to recover and go on. *)
Fixpoint runCalls (calls : list Call) (st : State) : State * list Happened :=
  match calls with
  | [] => (st, [])
  | CallSubscribe rule :: rest =>
      match SubscribeStream rule st with
      | (Ok s, st') =>
          let (st'', h) := runCalls rest st' in (st'', Subscribed s :: h)
      | (Panic _, st') => runCalls rest st'
      end
  | CallUnsubscribe s :: rest =>
      let (st'', h) := runCalls rest (after (UnsubscribeStream s) st) in
      (st'', Unsubscribed s :: h)
  end.

(** ** The client's goroutines, interleaved *)

(** The client's state, every run of [stream] started so far, and the
    [UnsubscribeStream] call that holds the lock while its stop send
    waits for a receiver. *)
Record Config := mkConfig {
  state : State;
  runs : list Phase;
  waiting : option StreamSubscription
}.

Definition setPhase (i : nat) (p : Phase) (rs : list Phase) : list Phase :=
  firstn i rs ++ p :: skipn (S i) rs.

(** A run of [stream] that leaves its [select]: the log line of the
    case taken, then the deferred calls. *)
Definition leaveSelect (sel : Selected) : IO unit :=
  streamSelect sel ;; streamDeferred true.

(** One move. [None]: the move cannot be made in this configuration
    (the lock is held, or the run is not where the move needs it).
    Calls under [tw.Lock()] are single moves; a stop send and the
    [select] that takes it are one move, in which the effects of the
    receiving run are recorded before those of the sender that goes
    on. An [UnsubscribeStream] that empties the set stops at its stop
    send with the lock held ([waiting]) until a run takes the stop.
    The goroutines that only read the client (cleanup, decode loop,
    forwarding) change neither a field of the client nor the phase of
    a run; they are the computations above rather than moves here,
    and a run that has returned does not wait for them. *)
Definition step (l : Label) (c : Config) : option Config :=
  match l with
  | LSubscribe rule =>
      match waiting c with
      | Some _ => None
      | None => Some (mkConfig (after (SubscribeStream rule) (state c)) (runs c) None)
      end
  | LUnsubscribe s =>
      match waiting c with
      | Some _ => None
      | None =>
          match unsubscribeLocked s (state c) with
          | (Ok true, st') => Some (mkConfig st' (runs c) (Some s))
          | (_, st') =>
              Some (mkConfig (after (closeChan (Tweets s)) st') (runs c) None)
          end
      end
  | LStopTaken i =>
      match waiting c, nth_error (runs c) i with
      | Some s, Some Selecting =>
          Some (mkConfig
                  (after (emit ESendStop ;; leaveSelect SelStop ;;
                          closeChan (Tweets s)) (state c))
                  (setPhase i Stopped (runs c)) None)
      | _, _ => None
      end
  | LStartStream =>
      match waiting c with
      | Some _ => None
      | None =>
          Some (mkConfig (after StartStream (state c))
                         (if streaming (client (state c))
                          then runs c else runs c ++ [Connecting])
                         None)
      end
  | LStopStream i =>
      match nth_error (runs c) i with
      | Some Selecting =>
          Some (mkConfig (after (StopStream ;; leaveSelect SelStop) (state c))
                         (setPhase i Stopped (runs c)) (waiting c))
      | _ => None
      end
  | LConnect i =>
      match nth_error (runs c) i with
      | Some Connecting =>
          match streamConnect (state c) with
          | (Ok (Some _), st') =>
              Some (mkConfig (after (emit (EGo GoDecode) ;; emit (EGo GoFanOut)) st')
                             (setPhase i Selecting (runs c)) (waiting c))
          | (_, st') =>
              Some (mkConfig (after (streamDeferred false) st')
                             (setPhase i Stopped (runs c)) (waiting c))
          end
      | _ => None
      end
  | LDecodeError i e =>
      match nth_error (runs c) i with
      | Some Selecting =>
          Some (mkConfig (after (leaveSelect (SelErr e)) (state c))
                         (setPhase i Stopped (runs c)) (waiting c))
      | _ => None
      end
  end.

(** A schedule: moves made one after the other. *)
Fixpoint steps (ls : list Label) (c : Config) : option Config :=
  match ls with
  | [] => Some c
  | l :: rest =>
      match step l c with
      | Some c' => steps rest c'
      | None => None
      end
  end.


End Methods.

Arguments State : clear implicits.
Arguments IO : clear implicits.
Arguments Config : clear implicits.

(** ** Reading a trace *)

Definition requestsOf (tr : list Effect) : list Request :=
  flat_map (fun e => match e with ERequest r => [r] | _ => [] end) tr.

Definition goroutinesOf (tr : list Effect) : list Goroutine :=
  flat_map (fun e => match e with EGo g => [g] | _ => [] end) tr.

Definition tweetsOf (tr : list Effect) : list Tweet :=
  flat_map (fun e => match e with ESendTweet t => [t] | _ => [] end) tr.

(** The request [DeleteStreamRules] hands to [http.Client.Do] for a
    list of rule IDs, with the header [authenticatedTwitterRequest]
    sets. *)
Definition deleteRequest (token : string) (ids : list string) : Request :=
  mkRequest "POST" rulesURL (DeleteBody ids) (Some "application/json"%string)
            (Some ("Bearer " ++ token)%string).

(** The request [CreateStreamRule] hands to [http.Client.Do]. *)
Definition createRequest (token : string) (options : list string) : Request :=
  mkRequest "POST" rulesURL
            (AddBody [mkStreamRule EmptyString (ruleBuilder options)])
            (Some "application/json"%string)
            (Some ("Bearer " ++ token)%string).

(** A state with nothing made, closed or done yet. *)
Definition initState {Remote : Type} (tw : Client) (r : Remote) : State Remote :=
  mkState tw r 0 [] [].


(** ** Reference keys of a tweet that the includes resolve *)

Definition mediaKnown (incl : includes) (k : string) : bool :=
  existsb (fun m => String.eqb k (MediaKey m)) (Media incl).

Definition pollKnown (incl : includes) (i : string) : bool :=
  existsb (fun p => String.eqb (p_ID p) i) (Polls incl).

(** The tweet without the media keys and poll IDs that [incl] has no
    entry for. *)
Definition dropUnresolved (tw : tweet) (incl : includes) : tweet :=
  mk_tweet (AuthorID tw) (t_Text tw) (t_ID tw) (CreatedAt tw) (Metrics tw)
           (mkAttachments (filter (mediaKnown incl) (MediaKeys (Attachments tw)))
                          (filter (pollKnown incl) (PollIDs (Attachments tw))))
           (t_Sensitive tw).

(** ** A remote side to run the client against

    The rules endpoint as the client's code expects it to answer
    (stream.go, [CreateStreamRule]: StatusCreated with nothing created
    and the existing rule under [Errors] when the value is already
    registered). It is used for the examples only. *)

Record Server := mkServer {
  registered : list StreamRule;
  issued : nat
}.

Definition idOf (n : nat) : string := NilEmpty.string_of_uint (Nat.to_uint n).

Definition rulesBody (r : streamRuleResponse) : body :=
  mkBody (inr "(rules)"%string) (inr r).

Definition textBody (s : string) : body :=
  mkBody (inr s) (inl "invalid character"%string).

Definition serverDo (req : Request) (srv : Server) : (error + Response) * Server :=
  match ReqBody req with
  | AddBody (r :: _) =>
      match find (fun x => String.eqb (rule_Rule x) (rule_Rule r)) (registered srv) with
      | Some existing =>
          (inr (mkResponse StatusCreated
                  (rulesBody (mkStreamRuleResponse [] 0 1 [existing]))), srv)
      | None =>
          let new := mkStreamRule (idOf (issued srv)) (rule_Rule r) in
          (inr (mkResponse StatusCreated
                  (rulesBody (mkStreamRuleResponse [new] 1 0 []))),
           mkServer (registered srv ++ [new]) (S (issued srv)))
      end
  | AddBody [] => (inr (mkResponse 400 (textBody "no rules")), srv)
  | DeleteBody ids =>
      (inr (mkResponse StatusOK (textBody "deleted")),
       mkServer (filter (fun x => negb (existsb (String.eqb (rule_ID x)) ids))
                        (registered srv))
                (issued srv))
  | NoBody => (inr (mkResponse StatusOK (textBody "stream")), srv)
  end.

Definition emptyServer : Server := mkServer [] 0.

(** ** What [UnsubscribeStream] computes from the Subscriber Set *)

(** The value of [ruleIsOrphaned] after the search loop. *)
Definition orphaned (subToRemove : StreamSubscription)
           (subs : list StreamSubscription) : bool :=
  snd (scanSubscribers subToRemove subs 0 (-1) true).

(** The Subscriber Set after the [if index != -1] statement. *)
Definition remaining (subToRemove : StreamSubscription)
           (subs : list StreamSubscription) : list StreamSubscription :=
  let index := fst (scanSubscribers subToRemove subs 0 (-1) true) in
  if negb (index =? -1) then removeAt index subs else subs.

(** Whether [close(c)] returns: [c] is not nil and not yet closed. *)
Definition closable (c : chan) (closedSoFar : list nat) : bool :=
  match c with
  | None => false
  | Some n => negb (existsb (Nat.eqb n) closedSoFar)
  end.

(** Same rule ID, as the search loop and the fan-out compare it. *)
Definition sameRuleID (a b : StreamSubscription) : bool :=
  String.eqb (rule_ID (Rule a)) (rule_ID (Rule b)).

(** ** Sequences of calls *)



(** ** Values for the examples *)

Definition exRule1 : StreamRule := mkStreamRule "1" " cats".
Definition exRule2 : StreamRule := mkStreamRule "2" " dogs".

(** The subscription the first [SubscribeStream] returns. *)
Definition exSub1 : StreamSubscription := mkSub (Some 0%nat) exRule1.

Definition exClient : Client := New "token".

Definition exState : State Server := initState exClient emptyServer.

(** A client with one subscriber, [exSub1]. *)
Definition exSubscribed : State Server :=
  fst (runCalls [CallSubscribe exRule1] exState).

(** A client whose only subscriber was subscribed and unsubscribed. *)
Definition exUnsubscribed : State Server :=
  fst (runCalls [CallSubscribe exRule1; CallUnsubscribe exSub1] exState).

Definition exUser : user := mkUser "1" "one" "@one" "pic" true.

Definition exIncludes : includes :=
  mkIncludes [exUser]
             [mkMedia "known" "photo" "example.org" EmptyString]
             [mkPoll [mkPollOption 1 "yes" 3] "poll-known"].

(** A tweet whose author, media key and poll ID have no entry in
    [exIncludes]. *)
Definition exDangling : tweet :=
  mk_tweet "7" "abc" "tweetid" "123" (mkMetrics 0 0 5 0)
           (mkAttachments ["missing"%string] ["poll-missing"%string]) false.

(** A record whose decoding failed on the type of a late field: the
    decoder has filled [result] as far as it could and returns the
    error. *)
Definition exDecodeError : error :=
  "json: cannot unmarshal string into Go struct field of type int"%string.

Definition exBadRecord : streamResponse :=
  mkStreamResponse
    (mk_tweet "1" "partly decoded" "t1" "123" (mkMetrics 0 0 0 0)
              (mkAttachments [] []) false)
    (mkIncludes [exUser] [] [])
    [exRule1].

Definition exGoodRecord : streamResponse :=
  mkStreamResponse
    (mk_tweet "1" "the next tweet" "t2" "456" (mkMetrics 0 0 1 0)
              (mkAttachments [] []) false)
    (mkIncludes [exUser] [] [])
    [exRule1].

Definition exRecords : list (streamResponse * option error) :=
  [(exBadRecord, Some exDecodeError); (exGoodRecord, None)].

Definition exBadTweet : Tweet :=
  convertToTweet (sr_Tweet exBadRecord) (sr_Includes exBadRecord)
                 (Some (sr_Matches exBadRecord)).

Definition exGoodTweet : Tweet :=
  convertToTweet (sr_Tweet exGoodRecord) (sr_Includes exGoodRecord)
                 (Some (sr_Matches exGoodRecord)).

(** ** The invariant of the running flag *)



(** A subscriber, a started stream whose run is in its [select]. *)
Definition exStreaming : Config Server :=
  mkConfig (mkState (mkClient "token" [exSub1] true false) emptyServer 1 [] [])
           [Selecting] None.

(** A client with two subscribers on different rules. *)
Definition exTwoSubs : State Server :=
  fst (runCalls [CallSubscribe exRule1; CallSubscribe exRule2] exState).


(** A computation that only adds to the trace. *)
Definition growsTrace {Remote A : Type} (m : IO Remote A) : Prop :=
  forall st, exists added, trace (after m st) = trace st ++ added.

(** ** The request/response calls beside the stream *)

(** [UserMetrics] and [Profile] (the profile file). *)
Record UserMetrics := mkUserMetrics {
  Followers : Z;
  Following : Z;
  um_Tweets : Z
}.

Record Profile := mkProfile {
  pr_Name : string;
  pr_Handle : string;
  pr_Picture : string;
  pr_Verified : bool;
  Description : string;
  pr_Metrics : UserMetrics
}.

(** The zero value of the named result [profile]. *)
Definition zeroProfile : Profile :=
  mkProfile EmptyString EmptyString EmptyString false EmptyString
            (mkUserMetrics 0 0 0).

(** [searchResponse]. *)
Record searchResponse := mkSearchResponse {
  s_Tweets : list tweet;
  s_Includes : includes
}.

(** [ShowTweetResponse]: [ExtendedEntities.Media], each entry with its
    [VideoInfo.Variants]. *)
Record variant := mkVariant {
  v_ContentType : string;
  v_URL : string
}.

Record videoMedia := mkVideoMedia {
  Variants : list variant
}.

Record ShowTweetResponse := mkShowTweetResponse {
  ExtMedia : list videoMedia
}.

Definition userFields : string :=
  "user.fields=description,public_metrics,verified,profile_image_url".

Definition ErrEmptyMedia : error := "got empty media array"%string.
Definition ErrEmptyVariants : error := "got empty variants array"%string.
Definition ErrNoContentTypeMatch : error :=
  "could not find supported content type entry"%string.

(** [tweetsFromSearchResult]: the slice made with the length of
    [response.Tweets] and filled index by index. *)
Definition tweetsFromSearchResult (response : searchResponse) : list Tweet :=
  map (fun t => convertToTweet t (s_Includes response) None) (s_Tweets response).

(** The query [SearchRecent] builds: every option followed by a
    space. *)
Fixpoint queryBuilder (options : list string) : string :=
  match options with
  | [] => EmptyString
  | option :: rest => (option ++ " " ++ queryBuilder rest)%string
  end.

Definition searchURL (escapedQuery : string) : string :=
  (apiRoot ++ "/tweets/search/recent?query=" ++ escapedQuery
   ++ "&max_results=10&" ++ expansionsAndFields)%string.

Definition profileURL (userID : string) : string :=
  (apiRoot ++ "/users/" ++ userID ++ "?" ++ userFields)%string.

Definition showTweetURL (tweetID : string) : string :=
  ("https://api.twitter.com/1.1/statuses/show.json?id=" ++ tweetID)%string.

(** The loop of [GetVideoURL] over the variants: the first one of
    content type video/mp4. *)
Fixpoint firstMP4 (variants : list variant) : string * option error :=
  match variants with
  | [] => (EmptyString, Some ErrNoContentTypeMatch)
  | v :: rest =>
      if String.eqb (v_ContentType v) "video/mp4"
      then (v_URL v, None)
      else firstMP4 rest
  end.

(** [GetVideoURL] once the answer is decoded. *)
Definition videoURLOf (tweetInfo : ShowTweetResponse) : string * option error :=
  match ExtMedia tweetInfo with
  | [] => (EmptyString, Some ErrEmptyMedia)
  | m :: _ =>
      match Variants m with
      | [] => (EmptyString, Some ErrEmptyVariants)
      | _ :: _ => firstMP4 (Variants m)
      end
  end.

Section Calls.

(** The remote side and [http.Client.Do] as before, and the other
    library calls these methods leave the package with:
    [http.NewRequest], by the error it gives for a URL (the methods
    above pass it constant URLs, these build theirs from an
    argument); [url.QueryEscape]; [json.Decoder.Decode] into a
    [searchResponse], a [userResponse] (its one field [Profile]) and a
    [ShowTweetResponse]; and what a failed decoding has left in
    [streamRuleResponse.Rules]. *)
Context {Remote : Type}.
Variable Do : Request -> Remote -> (error + Response) * Remote.
Variable newRequestError : string -> option error.
Variable QueryEscape : string -> string.
Variable decodeSearch : body -> error + searchResponse.
Variable decodeUser : body -> error + Profile.
Variable decodeShowTweet : body -> error + ShowTweetResponse.
Variable rulesLeft : body -> list StreamRule.

Notation "x <- m ;; k" := (bind m (fun x => k))
  (at level 61, m at next level, right associativity).

(** [GetStreamRules]. The URL is constant. The status of the answer
    is not looked at. *)
Definition GetStreamRules : IO Remote (list StreamRule * option error) :=
  result <- authenticatedTwitterRequest Do (mkRequest "GET" rulesURL NoBody None None) ;;
  match result with
  | inl err => ret ([], Some err)
  | inr resp =>
      match decodeRules (Body resp) with
      | inl err => ret (rulesLeft (Body resp), Some err)
      | inr streamRuleResponse => ret (Rules streamRuleResponse, None)
      end
  end.

(** [SearchRecent]. *)
Definition SearchRecent (options : list string) : IO Remote (list Tweet * option error) :=
  let uri := searchURL (QueryEscape (queryBuilder options)) in
  match newRequestError uri with
  | Some err => ret ([], Some err)
  | None =>
      result <- authenticatedTwitterRequest Do (mkRequest "GET" uri NoBody None None) ;;
      match result with
      | inl err => ret ([], Some err)
      | inr resp =>
          match decodeSearch (Body resp) with
          | inl err => ret ([], Some err)
          | inr searchResponse => ret (tweetsFromSearchResult searchResponse, None)
          end
      end
  end.

(** [GetProfile]. *)
Definition GetProfile (userID : string) : IO Remote (Profile * option error) :=
  let uri := profileURL userID in
  match newRequestError uri with
  | Some err => ret (zeroProfile, Some err)
  | None =>
      result <- authenticatedTwitterRequest Do (mkRequest "GET" uri NoBody None None) ;;
      match result with
      | inl err => ret (zeroProfile, Some err)
      | inr resp =>
          match decodeUser (Body resp) with
          | inl err => ret (zeroProfile, Some err)
          | inr profile => ret (profile, None)
          end
      end
  end.

(** [GetVideoURL]. *)
Definition GetVideoURL (tweetID : string) : IO Remote (string * option error) :=
  let endpoint := showTweetURL tweetID in
  match newRequestError endpoint with
  | Some err => ret (EmptyString, Some err)
  | None =>
      response <- authenticatedTwitterRequest Do
                    (mkRequest "GET" endpoint NoBody None None) ;;
      match response with
      | inl err => ret (EmptyString, Some err)
      | inr resp =>
          match decodeShowTweet (Body resp) with
          | inl err => ret (EmptyString, Some err)
          | inr tweetInfo => ret (videoURLOf tweetInfo)
          end
      end
  end.

End Calls.

(** An answer with its status replaced. *)
Definition withStatus {Remote : Type} (code : Z)
           (Do : Request -> Remote -> (error + Response) * Remote)
  : Request -> Remote -> (error + Response) * Remote :=
  fun req r =>
    let (answer, r') := Do req r in
    (match answer with
     | inl err => inl err
     | inr resp => inr (mkResponse code (Body resp))
     end, r').

(** ** What convertToTweet resolves, as lists *)

(** The URLs of the photos that a media key selects, in the order of
    [incl.Media]. *)
Definition photosOf (items : list media) (k : string) : list string :=
  flat_map (fun m => if String.eqb k (MediaKey m) && String.eqb (Type_ m) "photo"
                     then [URL m] else []) items.

(** The preview URLs of the videos that a media key selects. *)
Definition previewsOf (items : list media) (k : string) : list string :=
  flat_map (fun m => if String.eqb k (MediaKey m) && String.eqb (Type_ m) "video"
                     then [VideoPreviewImageURL m] else []) items.

(** The option lists of the polls that a poll ID selects. *)
Definition pollsOf (polls : list poll) (i : string) : list (list PollOption) :=
  flat_map (fun p => if String.eqb (p_ID p) i then [Options p] else []) polls.

(** A GET request as the read methods send it, with the header
    [authenticatedTwitterRequest] sets. *)
Definition getRequest (token url : string) : Request :=
  mkRequest "GET" url NoBody None (Some ("Bearer " ++ token)%string).

(** ** A caller that unsubscribes what it subscribed *)

(** Every [UnsubscribeStream] of the history is given a subscription
    that an earlier [SubscribeStream] returned ([issued]: the ones
    returned before the history starts). *)
Fixpoint disciplined (issued : list StreamSubscription) (h : list Happened) : Prop :=
  match h with
  | [] => True
  | Subscribed s :: rest => disciplined (s :: issued) rest
  | Unsubscribed u :: rest => In u issued /\ disciplined issued rest
  end.

(** The state such a caller keeps the client in: the subscriptions
    returned so far have channels of their own, all made; the
    Subscriber Set holds some of them, once each; a closed channel
    was made; and no subscriber's channel is closed. *)
Definition safeState {Remote : Type} (issued : list StreamSubscription)
           (st : State Remote) : Prop :=
  NoDup (map Tweets issued)
  /\ (forall s, In s issued -> exists n, Tweets s = Some n /\ (n < made st)%nat)
  /\ NoDup (streamSubscribers (client st))
  /\ (forall s, In s (streamSubscribers (client st)) -> In s issued)
  /\ (forall n, In n (closed st) -> (n < made st)%nat)
  /\ (forall s n, In s (streamSubscribers (client st)) -> Tweets s = Some n ->
                  ~ In n (closed st)).



(** The tweet the decode loop makes of what [Decode] left in
    [result]. *)
Definition decoded (result : streamResponse) : Tweet :=
  convertToTweet (sr_Tweet result) (sr_Includes result) (Some (sr_Matches result)).

(** The records whose decoding gave an error. *)
Definition errorCount (records : list (streamResponse * option error)) : nat :=
  length (filter (fun r => match snd r with Some _ => true | None => false end)
                 records).

(** The moves of the stream's life: starting it, its request being
    answered, its [select] taking a stop or an error. *)
Definition movesTheStream (l : Label) : bool :=
  match l with
  | LStartStream | LStopStream _ | LConnect _ | LDecodeError _ _ => true
  | LSubscribe _ | LUnsubscribe _ | LStopTaken _ => false
  end.

(** More values for the examples: a caller that subscribes twice and
    unsubscribes the first subscription; a client with one subscriber
    and no run of [stream]. *)
Definition exCalls : list Call :=
  [CallSubscribe exRule1; CallSubscribe exRule2; CallUnsubscribe exSub1].

Definition exIdle : Config Server := mkConfig exSubscribed [] None.

(** ** Proof tools *)

(** Runs the small computations of the IO layer. *)
Ltac io :=
  cbv [after effectsOf bind ret panic getClient setClient emit logln
       setSubscribers setStreaming makeChan httpDo
       authenticatedTwitterRequest first] in *;
  cbn [fst snd client remote made closed trace Token streamSubscribers
       streaming EnableAllTweetsChannel
       Method ReqURL ReqBody ContentType Authorization] in *.

(** * Properties *)

(** ** convertToTweet *)

Lemma mediaInner_unknown (k : string) (items : list media) (acc : mediaAcc) :
  existsb (fun m => String.eqb k (MediaKey m)) items = false ->
  mediaInner k items acc = acc.
Proof.
  revert acc; induction items as [|item rest IH]; intros acc H; cbn in *.
  - reflexivity.
  - apply orb_false_iff in H as [Hk Hrest].
    rewrite Hk. now apply IH.
Qed.

Lemma mediaOuter_filter (incl : includes) (keys : list string) (acc : mediaAcc) :
  mediaOuter keys (Media incl) acc
  = mediaOuter (filter (mediaKnown incl) keys) (Media incl) acc.
Proof.
  revert acc; induction keys as [|k rest IH]; intros acc; cbn.
  - reflexivity.
  - destruct (mediaKnown incl k) eqn:Hk; cbn.
    + apply IH.
    + unfold mediaKnown in Hk. rewrite (mediaInner_unknown _ _ _ Hk). apply IH.
Qed.

Lemma pollInner_unknown (i : string) (polls : list poll) (acc : list PollOption) :
  existsb (fun p => String.eqb (p_ID p) i) polls = false ->
  pollInner i polls acc = acc.
Proof.
  revert acc; induction polls as [|p rest IH]; intros acc H; cbn in *.
  - reflexivity.
  - apply orb_false_iff in H as [Hp Hrest].
    rewrite Hp. now apply IH.
Qed.

Lemma pollOuter_filter (incl : includes) (ids : list string) (acc : list PollOption) :
  pollOuter ids (Polls incl) acc
  = pollOuter (filter (pollKnown incl) ids) (Polls incl) acc.
Proof.
  revert acc; induction ids as [|i rest IH]; intros acc; cbn.
  - reflexivity.
  - destruct (pollKnown incl i) eqn:Hi; cbn.
    + apply IH.
    + unfold pollKnown in Hi. rewrite (pollInner_unknown _ _ _ Hi). apply IH.
Qed.

Lemma findAuthor_unknown (users : list user) (authorID : string) :
  (forall u, In u users -> u_ID u <> authorID) ->
  findAuthor users authorID = zeroAuthor.
Proof.
  induction users as [|u rest IH]; intros H; cbn.
  - reflexivity.
  - destruct (String.eqb_spec (u_ID u) authorID) as [E|_].
    + exfalso. apply (H u); [now left | exact E].
    + apply IH. intros v Hv. apply H. now right.
Qed.

Lemma filter_none {A : Type} (f : A -> bool) (l : list A) :
  (forall x, In x l -> f x = false) -> filter f l = [].
Proof.
  induction l as [|x rest IH]; intros H; cbn.
  - reflexivity.
  - rewrite (H x (or_introl eq_refl)). apply IH. intros y Hy. apply H. now right.
Qed.

(** C9. [convertToTweet] is a total function into [Tweet] (it has no
    error result and nothing in it can panic), and a reference that
    the includes do not resolve leaves its enrichment out: media keys
    and poll IDs without an entry contribute nothing to the result;
    an author ID without a user gives the zero author; when no media
    key has an entry there is no image, no video and no preview; when
    no poll ID has an entry there are no poll options. *)
Theorem convertToTweet_unresolved_refs_omitted :
  forall (tw : tweet) (incl : includes) (matches : option (list StreamRule)),
    convertToTweet tw incl matches
    = convertToTweet (dropUnresolved tw incl) incl matches
    /\ ((forall u, In u (Users incl) -> u_ID u <> AuthorID tw) ->
        TweetAuthor (convertToTweet tw incl matches) = zeroAuthor)
    /\ ((forall k, In k (MediaKeys (Attachments tw)) -> mediaKnown incl k = false) ->
        Images (convertToTweet tw incl matches) = []
        /\ HasVideo (convertToTweet tw incl matches) = false
        /\ VideoPreviewURL (convertToTweet tw incl matches) = EmptyString)
    /\ ((forall i, In i (PollIDs (Attachments tw)) -> pollKnown incl i = false) ->
        Poll (convertToTweet tw incl matches) = []).
Proof.
  intros tw incl matches. split; [|split; [|split]].
  - unfold convertToTweet, dropUnresolved; cbn.
    now rewrite <- mediaOuter_filter, <- pollOuter_filter.
  - intros H. cbn. now apply findAuthor_unknown.
  - intros H. cbn. rewrite mediaOuter_filter, (filter_none _ _ H). auto.
  - intros H. cbn. rewrite pollOuter_filter, (filter_none _ _ H). reflexivity.
Qed.

(** ** The fan-out step *)

Lemma emitAll_run {Remote : Type} (es : list Effect) (st : State Remote) :
  emitAll es st
  = (Ok tt, mkState (client st) (remote st) (made st) (closed st) (trace st ++ es)).
Proof.
  revert st; induction es as [|e rest IH]; intros st; cbn.
  - io. rewrite app_nil_r. now destruct st.
  - io. rewrite IH. cbn. now rewrite <- app_assoc.
Qed.

Lemma skipn_length_app {A : Type} (l k : list A) : skipn (length l) (l ++ k) = k.
Proof. induction l as [|x l IH]; cbn; auto. Qed.

Lemma fanOut_effects {Remote : Type} (t : Tweet) (st : State Remote) :
  effectsOf (fanOut t) st = deliver (streamSubscribers (client st)) t.
Proof.
  unfold effectsOf, after, fanOut. io. rewrite emitAll_run. cbn.
  apply skipn_length_app.
Qed.

Lemma in_sendsTo (sub : StreamSubscription) (t : Tweet) (e : Effect) :
  In e (sendsTo sub t)
  <-> In (rule_ID (Rule sub)) (RuleIDs t) /\ e = ESend (Tweets sub) t.
Proof.
  unfold sendsTo. rewrite in_flat_map. split.
  - intros (m & Hm & He).
    destruct (String.eqb_spec m (rule_ID (Rule sub))) as [E|_]; cbn in He.
    + destruct He as [He|[]]. subst. auto.
    + destruct He.
  - intros (Hin & ->). exists (rule_ID (Rule sub)). split; [exact Hin|].
    rewrite String.eqb_refl. now left.
Qed.


(** ** Deleting rules *)

Lemma DeleteStreamRules_requests {Remote : Type}
      (Do : Request -> Remote -> (error + Response) * Remote)
      (rules : list StreamRule) (st : State Remote) :
  effectsOf (DeleteStreamRules Do rules) st
  = [ERequest (deleteRequest (Token (client st)) (map rule_ID rules))].
Proof.
  unfold effectsOf, after, DeleteStreamRules. io.
  destruct (Do _ (remote st)) as [[err|resp] remote'] eqn:HDo; cbn.
  - apply skipn_length_app.
  - destruct (readAll (Body resp)) as [err|data]; cbn.
    + apply skipn_length_app.
    + destruct (negb (StatusCode resp =? StatusOK)); cbn; apply skipn_length_app.
Qed.

(** C10. [DeleteStreamRule] on a rule and [DeleteStreamRules] on the
    one-element list of that rule are the same computation: from every
    state and against every remote side they return the same result
    and leave the same state, and the one effect of either is the
    deletion request whose identifier list is the rule's ID alone. *)
Theorem DeleteStreamRule_is_singleton_DeleteStreamRules :
  forall (Remote : Type) (Do : Request -> Remote -> (error + Response) * Remote)
         (rule : StreamRule) (st : State Remote),
    DeleteStreamRule Do rule st = DeleteStreamRules Do [rule] st
    /\ effectsOf (DeleteStreamRule Do rule) st
       = [ERequest (deleteRequest (Token (client st)) [rule_ID rule])]
    /\ effectsOf (DeleteStreamRules Do [rule]) st
       = [ERequest (deleteRequest (Token (client st)) [rule_ID rule])].
Proof.
  intros Remote Do rule st. split; [reflexivity|].
  split; [unfold DeleteStreamRule|]; apply (DeleteStreamRules_requests Do [rule] st).
Qed.

(** ** The search loop of UnsubscribeStream *)

Lemma rule_eqb_eq (a b : StreamRule) : rule_eqb a b = true <-> a = b.
Proof.
  unfold rule_eqb. rewrite andb_true_iff, !String.eqb_eq.
  destruct a, b; cbn. split.
  - intros [-> ->]. reflexivity.
  - intros E. injection E. auto.
Qed.

Lemma chan_eqb_eq (a b : chan) : chan_eqb a b = true <-> a = b.
Proof.
  destruct a as [x|], b as [y|]; cbn; try (split; congruence).
  rewrite Nat.eqb_eq. split; congruence.
Qed.

Lemma sub_eqb_eq (a b : StreamSubscription) : sub_eqb a b = true <-> a = b.
Proof.
  unfold sub_eqb. rewrite andb_true_iff, chan_eqb_eq, rule_eqb_eq.
  destruct a, b; cbn. split.
  - intros [-> ->]. reflexivity.
  - intros E. injection E. auto.
Qed.

Lemma sub_eqb_neq (a b : StreamSubscription) : sub_eqb a b = false <-> a <> b.
Proof.
  rewrite <- sub_eqb_eq. destruct (sub_eqb a b); split; congruence.
Qed.

Lemma sub_eqb_refl (a : StreamSubscription) : sub_eqb a a = true.
Proof. now apply sub_eqb_eq. Qed.

(** The flag the loop leaves: the rule is orphaned exactly when every
    entry is the subscription itself or has another rule ID. *)
Lemma scan_orphaned (u : StreamSubscription) (subs : list StreamSubscription)
      (i index : Z) (o : bool) :
  snd (scanSubscribers u subs i index o)
  = o && forallb (fun sub => sub_eqb u sub || negb (sameRuleID u sub)) subs.
Proof.
  revert i index o; induction subs as [|sub rest IH]; intros i index o; cbn.
  - now rewrite andb_true_r.
  - unfold sameRuleID at 1.
    destruct (sub_eqb u sub) eqn:Eu; cbn.
    + destruct (negb (i =? -1) && negb o) eqn:Eb; cbn.
      * apply andb_true_iff in Eb as [_ Ho]. apply negb_true_iff in Ho.
        now rewrite Ho.
      * apply IH.
    + destruct (String.eqb (rule_ID (Rule u)) (rule_ID (Rule sub))) eqn:Er; cbn.
      * rewrite andb_false_r.
        match goal with |- snd (if ?b then _ else _) = _ => destruct b end; cbn;
          [reflexivity|].
        rewrite IH. reflexivity.
      * destruct (negb (index =? -1) && negb o) eqn:Eb; cbn.
        -- apply andb_true_iff in Eb as [_ Ho]. apply negb_true_iff in Ho.
           now rewrite Ho.
        -- rewrite IH. reflexivity.
Qed.

(** A subscription that is not in the set leaves [index] as it was. *)
Lemma scan_absent (u : StreamSubscription) (subs : list StreamSubscription)
      (i index : Z) (o : bool) :
  ~ In u subs -> fst (scanSubscribers u subs i index o) = index.
Proof.
  revert i index o; induction subs as [|sub rest IH]; intros i index o Hn; cbn.
  - reflexivity.
  - assert (Eu : sub_eqb u sub = false).
    { apply sub_eqb_neq. intros ->. apply Hn. now left. }
    rewrite Eu.
    match goal with |- fst (if ?b then _ else _) = _ => destruct b end; cbn.
    + reflexivity.
    + apply IH. intros Hin. apply Hn. now right.
Qed.

(** In a set without duplicates the loop finds the position of the
    subscription. *)
Lemma scan_present (u : StreamSubscription) (subs : list StreamSubscription)
      (i : Z) (o : bool) :
  NoDup subs -> In u subs ->
  exists l1 l2,
    subs = l1 ++ u :: l2
    /\ fst (scanSubscribers u subs i (-1) o) = i + Z.of_nat (length l1).
Proof.
  revert i o; induction subs as [|sub rest IH]; intros i o Hnd Hin.
  - destruct Hin.
  - inversion Hnd as [|? ? Hnotin Hnd']; subst. cbn.
    destruct (sub_eqb u sub) eqn:Eu.
    + apply sub_eqb_eq in Eu. subst sub.
      exists [], rest. split; [reflexivity|]. cbn [length Z.of_nat].
      rewrite Z.add_0_r.
      destruct (negb (i =? -1) && negb o); cbn; [reflexivity|].
      now apply scan_absent.
    + apply sub_eqb_neq in Eu.
      destruct Hin as [E|Hin]; [congruence|].
      cbn [Z.eqb Pos.eqb negb andb].
      match goal with
      | |- context [scanSubscribers u rest (i + 1) (-1) ?o'] =>
          destruct (IH (i + 1) o' Hnd' Hin) as (l1 & l2 & Hs & Hi)
      end.
      exists (sub :: l1), l2. split.
      * cbn. now rewrite Hs.
      * rewrite Hi. cbn [length]. lia.
Qed.

Lemma firstn_length_app {A : Type} (l k : list A) : firstn (length l) (l ++ k) = l.
Proof. induction l as [|x l IH]; cbn; [now destruct k | now rewrite IH]. Qed.

Lemma skipn_succ_app {A : Type} (l k : list A) (x : A) :
  skipn (S (length l)) (l ++ x :: k) = k.
Proof. induction l as [|y l IH]; cbn; auto. Qed.

Lemma removeAt_split (l1 l2 : list StreamSubscription) (u : StreamSubscription) :
  removeAt (Z.of_nat (length l1)) (l1 ++ u :: l2) = l1 ++ l2.
Proof.
  unfold removeAt.
  replace (Z.to_nat (Z.of_nat (length l1) + 1)) with (S (length l1)) by lia.
  rewrite Nat2Z.id, firstn_length_app, skipn_succ_app. reflexivity.
Qed.

(** The set [UnsubscribeStream] leaves, for a set without duplicates:
    the subscription is gone and every other entry is kept. *)
Lemma remaining_present (u : StreamSubscription) (subs : list StreamSubscription) :
  NoDup subs -> In u subs ->
  exists l1 l2, subs = l1 ++ u :: l2 /\ remaining u subs = l1 ++ l2.
Proof.
  intros Hnd Hin.
  destruct (scan_present u subs 0 true Hnd Hin) as (l1 & l2 & Hs & Hi).
  exists l1, l2. split; [exact Hs|].
  unfold remaining. rewrite Hi. cbn [Z.add].
  replace (negb (Z.of_nat (length l1) =? -1)) with true
    by (symmetry; apply negb_true_iff, Z.eqb_neq; lia).
  rewrite Hs. apply removeAt_split.
Qed.

Lemma remaining_absent (u : StreamSubscription) (subs : list StreamSubscription) :
  ~ In u subs -> remaining u subs = subs.
Proof.
  intros Hn. unfold remaining. now rewrite (scan_absent _ _ _ _ _ Hn).
Qed.

Lemma remaining_spec (u : StreamSubscription) (subs : list StreamSubscription) :
  NoDup subs ->
  NoDup (remaining u subs)
  /\ forall x, In x (remaining u subs) <-> In x subs /\ x <> u.
Proof.
  intros Hnd.
  destruct (in_dec (fun a b => match sub_eqb a b as r
                                      return sub_eqb a b = r -> {a = b} + {a <> b}
                                with
                                | true => fun E => left (proj1 (sub_eqb_eq a b) E)
                                | false => fun E => right (proj1 (sub_eqb_neq a b) E)
                                end eq_refl) u subs) as [Hin|Hn].
  - destruct (remaining_present u subs Hnd Hin) as (l1 & l2 & Hs & Hr).
    rewrite Hr. subst subs.
    pose proof (NoDup_remove_1 _ _ _ Hnd) as Hnd1.
    pose proof (NoDup_remove_2 _ _ _ Hnd) as Hnot.
    split; [exact Hnd1|].
    intros x. rewrite !in_app_iff. cbn [In]. split.
    + intros Hx. split; [tauto|]. intros ->. apply Hnot. apply in_app_iff. tauto.
    + intros [[H|[H|H]] Hne]; [tauto|congruence|tauto].
  - rewrite (remaining_absent _ _ Hn). split; [exact Hnd|].
    intros x. split; [|tauto]. intros Hx. split; [exact Hx|]. congruence.
Qed.

(** ** SubscribeStream and UnsubscribeStream, run *)

Lemma SubscribeStream_run {Remote : Type} (rule : StreamRule) (st : State Remote) :
  SubscribeStream rule st
  = (Ok (mkSub (Some (made st)) rule),
     mkState (mkClient (Token (client st))
                       (streamSubscribers (client st) ++ [mkSub (Some (made st)) rule])
                       (streaming (client st))
                       (EnableAllTweetsChannel (client st)))
             (remote st) (S (made st)) (closed st) (trace st)).
Proof. reflexivity. Qed.

Lemma unsubscribeRemove_run {Remote : Type} (u : StreamSubscription)
      (st : State Remote) :
  unsubscribeRemove u st
  = (Ok tt,
     mkState (mkClient (Token (client st))
                       (remaining u (streamSubscribers (client st)))
                       (streaming (client st))
                       (EnableAllTweetsChannel (client st)))
             (remote st) (made st) (closed st)
             (trace st ++ [EGo (GoCleanup (orphaned u (streamSubscribers (client st)))
                                          (Rule u))])).
Proof.
  destruct st as [[token subs str ena] rem mk cl tr].
  unfold unsubscribeRemove, remaining, orphaned. io.
  destruct (scanSubscribers u subs 0 (-1) true) as [index orph]. cbn [fst snd].
  destruct (negb (index =? -1)); reflexivity.
Qed.

(** [UnsubscribeStream], whatever its argument: the result, the state
    it leaves and the effects it adds. *)
Lemma UnsubscribeStream_run {Remote : Type} (u : StreamSubscription)
      (st : State Remote) :
  let subs := streamSubscribers (client st) in
  UnsubscribeStream u st
  = (if closable (Tweets u) (closed st) then Ok tt
     else Panic (match Tweets u with
                 | None => "close of nil channel"
                 | Some _ => "close of closed channel"
                 end)%string,
     mkState (mkClient (Token (client st)) (remaining u subs)
                       (streaming (client st))
                       (EnableAllTweetsChannel (client st)))
             (remote st) (made st)
             (match Tweets u with
              | Some n => if closable (Tweets u) (closed st)
                          then n :: closed st else closed st
              | None => closed st
              end)
             (trace st
              ++ [EGo (GoCleanup (orphaned u subs) (Rule u))]
              ++ (if Z.of_nat (length (remaining u subs)) =? 0
                  then [ELog (LogMsg "no subs left, sending stop"); ESendStop]
                  else [])
              ++ (if closable (Tweets u) (closed st)
                  then [EClose (Tweets u)] else []))).
Proof.
  cbn zeta. unfold UnsubscribeStream, unsubscribeLocked.
  unfold bind at 1 2. rewrite unsubscribeRemove_run. io.
  destruct (Z.of_nat (length (remaining u (streamSubscribers (client st)))) =? 0);
    unfold closeChan, closable; io;
    destruct (Tweets u) as [n|]; io;
    try destruct (existsb (Nat.eqb n) (closed st)); cbn;
    rewrite <- ?app_assoc; cbn; rewrite ?app_nil_r; reflexivity.
Qed.

Lemma UnsubscribeStream_effects {Remote : Type} (u : StreamSubscription)
      (st : State Remote) :
  let subs := streamSubscribers (client st) in
  effectsOf (UnsubscribeStream u) st
  = [EGo (GoCleanup (orphaned u subs) (Rule u))]
    ++ (if Z.of_nat (length (remaining u subs)) =? 0
        then [ELog (LogMsg "no subs left, sending stop"); ESendStop]
        else [])
    ++ (if closable (Tweets u) (closed st) then [EClose (Tweets u)] else []).
Proof.
  cbn zeta. unfold effectsOf, after. rewrite UnsubscribeStream_run. cbn [snd trace].
  apply skipn_length_app.
Qed.

Lemma UnsubscribeStream_subscribers {Remote : Type} (u : StreamSubscription)
      (st : State Remote) :
  streamSubscribers (client (after (UnsubscribeStream u) st))
  = remaining u (streamSubscribers (client st)).
Proof. unfold after. rewrite UnsubscribeStream_run. reflexivity. Qed.

(** The flag the cleanup goroutine captures, read on the set that is
    left: true exactly when no remaining subscription has the rule ID
    of the removed one. *)
Lemma orphaned_spec (u : StreamSubscription) (subs : list StreamSubscription) :
  NoDup subs ->
  (orphaned u subs = true
   <-> forall x, In x (remaining u subs) -> rule_ID (Rule x) <> rule_ID (Rule u)).
Proof.
  intros Hnd. destruct (remaining_spec u subs Hnd) as [_ Hrem].
  unfold orphaned. rewrite scan_orphaned. cbn [andb]. rewrite forallb_forall.
  split.
  - intros H x Hx. apply Hrem in Hx as [Hin Hne].
    specialize (H x Hin). apply orb_true_iff in H as [H|H].
    + apply sub_eqb_eq in H. congruence.
    + apply negb_true_iff in H. unfold sameRuleID in H.
      apply String.eqb_neq in H. congruence.
  - intros H x Hin. apply orb_true_iff.
    destruct (sub_eqb u x) eqn:E; [now left|right].
    apply sub_eqb_neq in E. apply negb_true_iff. unfold sameRuleID.
    apply String.eqb_neq. intros Eid. apply (H x); [|now symmetry].
    apply Hrem. split; [exact Hin|congruence].
Qed.

Lemma orphanCleanup_requests {Remote : Type}
      (Do : Request -> Remote -> (error + Response) * Remote)
      (b : bool) (rule : StreamRule) (w : State Remote) :
  requestsOf (effectsOf (orphanCleanup Do b rule) w)
  = if b then [deleteRequest (Token (client w)) [rule_ID rule]] else [].
Proof.
  unfold effectsOf, after, orphanCleanup, DeleteStreamRule, DeleteStreamRules.
  destruct b; io.
  - destruct (Do _ (remote w)) as [[err|resp] remote'] eqn:HDo; cbn.
    + rewrite <- !app_assoc, skipn_length_app. reflexivity.
    + destruct (readAll (Body resp)) as [err|data]; cbn.
      * rewrite <- !app_assoc, skipn_length_app. reflexivity.
      * destruct (negb (StatusCode resp =? StatusOK)); cbn;
          rewrite <- ?app_assoc, skipn_length_app; reflexivity.
  - rewrite skipn_length_app. reflexivity.
Qed.

(** C2. In a Subscriber Set without duplicates that contains [s]:
    when no subscription left after the removal has the rule ID of
    [s], [UnsubscribeStream s] starts one cleanup goroutine, for the
    rule of [s] with [ruleIsOrphaned] true, and that goroutine sends
    exactly one request, the deletion of that rule's ID; when a
    subscription that is left shares the rule ID, the one goroutine
    started has [ruleIsOrphaned] false and sends no request.
    [UnsubscribeStream] itself sends no request. *)
Theorem UnsubscribeStream_deletes_rule_iff_orphaned :
  forall (Remote : Type) (Do : Request -> Remote -> (error + Response) * Remote)
         (st : State Remote) (s : StreamSubscription),
    NoDup (streamSubscribers (client st)) ->
    In s (streamSubscribers (client st)) ->
    let kept := streamSubscribers (client (after (UnsubscribeStream s) st)) in
    ((forall sub, In sub kept -> rule_ID (Rule sub) <> rule_ID (Rule s)) ->
     goroutinesOf (effectsOf (UnsubscribeStream s) st) = [GoCleanup true (Rule s)]
     /\ forall w : State Remote,
          requestsOf (effectsOf (orphanCleanup Do true (Rule s)) w)
          = [deleteRequest (Token (client w)) [rule_ID (Rule s)]])
    /\ ((exists sub, In sub kept /\ rule_ID (Rule sub) = rule_ID (Rule s)) ->
        goroutinesOf (effectsOf (UnsubscribeStream s) st) = [GoCleanup false (Rule s)]
        /\ forall w : State Remote,
             requestsOf (effectsOf (orphanCleanup Do false (Rule s)) w) = [])
    /\ requestsOf (effectsOf (UnsubscribeStream s) st) = []
    /\ ~ In s kept.
Proof.
  intros Remote Do st s Hnd Hin kept.
  assert (Hgo : goroutinesOf (effectsOf (UnsubscribeStream s) st)
                = [GoCleanup (orphaned s (streamSubscribers (client st))) (Rule s)]).
  { rewrite UnsubscribeStream_effects. cbn zeta.
    destruct (Z.of_nat _ =? 0); destruct (closable _ _); reflexivity. }
  subst kept. rewrite UnsubscribeStream_subscribers.
  pose proof (orphaned_spec s _ Hnd) as Ho.
  split; [|split; [|split]].
  - intros Hnone. split.
    + rewrite Hgo. apply Ho in Hnone. now rewrite Hnone.
    + intros w. apply (orphanCleanup_requests Do true).
  - intros (sub & Hsub & Hid). split.
    + rewrite Hgo.
      destruct (orphaned s (streamSubscribers (client st))) eqn:E; [|reflexivity].
      exfalso. apply (proj1 Ho eq_refl sub Hsub Hid).
    + intros w. apply (orphanCleanup_requests Do false).
  - rewrite UnsubscribeStream_effects. cbn zeta.
    destruct (Z.of_nat _ =? 0); destruct (closable _ _); reflexivity.
  - intros Hs. apply (remaining_spec s _ Hnd) in Hs. now destruct Hs.
Qed.

(** ** The Subscriber Set after a sequence of calls *)







(** ** UnsubscribeStream on a subscription that is not in the set *)


(** C3. [UnsubscribeStream] on a subscription that is not in the
    Subscriber Set is not without effect. After [SubscribeStream] and
    [UnsubscribeStream] of the same subscription the set is empty and
    the channel closed; a second [UnsubscribeStream] of it leaves the
    set as it is, but starts a cleanup goroutine that requests the
    deletion of the rule once more, issues a stop send, and panics
    closing the closed channel. And on a subscription value that was
    never in the set (the channel of [exSub1] with another rule) the
    call requests the deletion of that rule and closes the channel of
    a subscriber that is still in the set. *)
Example UnsubscribeStream_absent_has_effects :
  (~ In exSub1 (streamSubscribers (client exUnsubscribed))
   /\ streamSubscribers (client (after (UnsubscribeStream exSub1) exUnsubscribed))
      = streamSubscribers (client exUnsubscribed)
   /\ fst (UnsubscribeStream exSub1 exUnsubscribed) = Panic "close of closed channel"
   /\ effectsOf (UnsubscribeStream exSub1) exUnsubscribed
      = [EGo (GoCleanup true exRule1);
         ELog (LogMsg "no subs left, sending stop");
         ESendStop]
   /\ requestsOf (effectsOf (orphanCleanup serverDo true exRule1)
                            (after (UnsubscribeStream exSub1) exUnsubscribed))
      = [deleteRequest "token" ["1"%string]])
  /\ (~ In (mkSub (Some 0%nat) exRule2) (streamSubscribers (client exSubscribed))
      /\ fst (UnsubscribeStream (mkSub (Some 0%nat) exRule2) exSubscribed) = Ok tt
      /\ streamSubscribers
           (client (after (UnsubscribeStream (mkSub (Some 0%nat) exRule2)) exSubscribed))
         = [exSub1]
      /\ effectsOf (UnsubscribeStream (mkSub (Some 0%nat) exRule2)) exSubscribed
         = [EGo (GoCleanup true exRule2); EClose (Some 0%nat)]).
Proof.
  repeat split; try reflexivity.
  - intros [].
  - intros [E|[]]. discriminate E.
Qed.

(** ** Creating rules *)

Lemma CreateStreamRule_answered {Remote : Type}
      (Do : Request -> Remote -> (error + Response) * Remote)
      (options : list string) (st : State Remote)
      (resp : Response) (remote' : Remote) :
  Do (createRequest (Token (client st)) options) (remote st) = (inr resp, remote') ->
  StatusCode resp = StatusCreated ->
  forall srr,
    decodeRules (Body resp) = inr srr ->
    CreateStreamRule Do options st
    = first (if negb (Created_ srr =? 1) && (0 <? Z.of_nat (length (Errors srr)))
             then Errors srr else Rules srr)
            (mkState (client st) remote' (made st) (closed st)
                     (trace st ++ [ERequest (createRequest (Token (client st)) options)])).
Proof.
  intros HDo Hst srr Hdec. unfold CreateStreamRule, createRequest in *. io.
  rewrite HDo. cbn. rewrite Hst, Hdec. cbn.
  destruct (negb (Created_ srr =? 1) && (0 <? Z.of_nat (length (Errors srr))));
    reflexivity.
Qed.

(** C5. Against every remote side: (a) when the rules endpoint
    answers StatusCreated with a created count other than 1 and a
    non-empty [Errors] list (its answer for a rule that exists
    already), [CreateStreamRule] returns the first entry of [Errors],
    the existing rule with its identifier, and no error; (b) when a
    first call is answered with the created rule [r] and a second call
    with the same options is answered with the duplicate answer naming
    a rule with the identifier of [r], both calls return that
    identifier and no error; (c) when the answer has any status other
    than StatusCreated, the call returns the error
    "failed to create rule". *)
Theorem CreateStreamRule_duplicate_returns_existing :
  forall (Remote : Type) (Do : Request -> Remote -> (error + Response) * Remote),
    (forall options (st : State Remote) resp remote' srr e rest,
        Do (createRequest (Token (client st)) options) (remote st)
        = (inr resp, remote') ->
        StatusCode resp = StatusCreated ->
        decodeRules (Body resp) = inr srr ->
        Created_ srr <> 1 ->
        Errors srr = e :: rest ->
        fst (CreateStreamRule Do options st) = Ok (e, None))
    /\ (forall options (st : State Remote) resp1 remote1 srr1 r rest1
               resp2 remote2 srr2 e rest2,
           Do (createRequest (Token (client st)) options) (remote st)
           = (inr resp1, remote1) ->
           StatusCode resp1 = StatusCreated ->
           decodeRules (Body resp1) = inr srr1 ->
           Created_ srr1 = 1 ->
           Rules srr1 = r :: rest1 ->
           Do (createRequest (Token (client st)) options) remote1
           = (inr resp2, remote2) ->
           StatusCode resp2 = StatusCreated ->
           decodeRules (Body resp2) = inr srr2 ->
           Created_ srr2 <> 1 ->
           Errors srr2 = e :: rest2 ->
           rule_ID e = rule_ID r ->
           fst (CreateStreamRule Do options st) = Ok (r, None)
           /\ fst (CreateStreamRule Do options (after (CreateStreamRule Do options) st))
              = Ok (e, None)
           /\ rule_ID e = rule_ID r)
    /\ (forall options (st : State Remote) resp remote',
           Do (createRequest (Token (client st)) options) (remote st)
           = (inr resp, remote') ->
           StatusCode resp <> StatusCreated ->
           fst (CreateStreamRule Do options st)
           = Ok (mkStreamRule EmptyString (ruleBuilder options),
                 Some "failed to create rule"%string)).
Proof.
  intros Remote Do. split; [|split].
  - intros options st resp remote' srr e rest HDo Hst Hdec Hc He.
    rewrite (CreateStreamRule_answered Do options st resp remote' HDo Hst srr Hdec).
    apply Z.eqb_neq in Hc. rewrite Hc, He. reflexivity.
  - intros options st resp1 remote1 srr1 r rest1 resp2 remote2 srr2 e rest2
           HDo1 Hst1 Hdec1 Hc1 Hr1 HDo2 Hst2 Hdec2 Hc2 He2 Hid.
    pose proof (CreateStreamRule_answered Do options st resp1 remote1
                  HDo1 Hst1 srr1 Hdec1) as H1.
    rewrite Hc1, Hr1 in H1. cbn in H1. unfold ret in H1.
    unfold after. rewrite H1. cbn [fst snd]. split; [reflexivity|].
    split; [|exact Hid].
    rewrite (CreateStreamRule_answered Do options
               (mkState (client st) remote1 (made st) (closed st)
                        (trace st ++ [ERequest (createRequest (Token (client st)) options)]))
               resp2 remote2 HDo2 Hst2 srr2 Hdec2).
    apply Z.eqb_neq in Hc2. rewrite Hc2, He2. reflexivity.
  - intros options st resp remote' HDo Hst.
    unfold CreateStreamRule, createRequest in *. io. rewrite HDo. cbn.
    apply Z.eqb_neq in Hst. rewrite Hst. reflexivity.
Qed.

(** ** The decode loop *)

Lemma growsTrace_ret {Remote A : Type} (a : A) : growsTrace (@ret Remote A a).
Proof. intros st. exists []. cbn. now rewrite app_nil_r. Qed.

Lemma growsTrace_emit {Remote : Type} (e : Effect) : growsTrace (@emit Remote e).
Proof. intros st. exists [e]. reflexivity. Qed.

Lemma growsTrace_getClient {Remote : Type} : growsTrace (@getClient Remote).
Proof. intros st. exists []. cbn. now rewrite app_nil_r. Qed.

Lemma growsTrace_bind {Remote A B : Type} (m : IO Remote A) (k : A -> IO Remote B) :
  growsTrace m -> (forall a, growsTrace (k a)) -> growsTrace (bind m k).
Proof.
  intros Hm Hk st. destruct (Hm st) as (a1 & H1).
  unfold after, bind in *. destruct (m st) as [[a|msg] st']; cbn [snd] in *.
  - destruct (Hk a st') as (a2 & H2). exists (a1 ++ a2).
    unfold after in H2. now rewrite H2, H1, app_assoc.
  - now exists a1.
Qed.

Lemma decodeLoop_growsTrace {Remote : Type}
      (records : list (streamResponse * option error)) :
  forall selecting : bool, growsTrace (@decodeLoop Remote records selecting).
Proof.
  induction records as [|[result err] rest IH]; intros selecting; cbn [decodeLoop].
  - apply growsTrace_emit.
  - destruct err as [e|]; [destruct selecting|];
      repeat first [ apply growsTrace_bind; [|intros ?]
                   | apply growsTrace_emit
                   | apply growsTrace_ret
                   | apply growsTrace_getClient
                   | apply IH
                   | match goal with
                     | |- growsTrace (if ?b then _ else _) => destruct b
                     end ].
Qed.

(** Whatever the stream and the state: when the decoding of a record
    fails and the [select] takes the error, the loop still sends the
    tweet converted from what the failed decoding left in [result]. *)
Lemma decodeLoop_sends_failed_record {Remote : Type}
      (result : streamResponse) (e : error)
      (rest : list (streamResponse * option error)) (st : State Remote) :
  exists before later,
    effectsOf (decodeLoop ((result, Some e) :: rest) true) st
    = ESendErr e :: before
      ++ ESendTweet (convertToTweet (sr_Tweet result) (sr_Includes result)
                                    (Some (sr_Matches result)))
      :: later.
Proof.
  unfold effectsOf, after. cbn [decodeLoop]. io.
  destruct (EnableAllTweetsChannel (client st)); cbn;
    match goal with
    | |- context [decodeLoop rest false ?s] =>
        destruct (decodeLoop_growsTrace rest false s) as (added & Hadd)
    end;
    unfold after in Hadd; rewrite Hadd; cbn [trace];
    rewrite <- !app_assoc, skipn_length_app; cbn.
  - exists [ESendAll (convertToTweet (sr_Tweet result) (sr_Includes result)
                                     (Some (sr_Matches result)))], added.
    reflexivity.
  - exists [], added. reflexivity.
Qed.

(** C6. The decode loop does not end at a decode failure. On a
    stream whose first record fails to decode and whose second record
    decodes, with the [select] of [stream] there to take the error:
    the error is sent, and after it the loop converts and sends the
    value left by the failed decoding, decodes and sends the next
    record, and only then closes the tweet channel; the forwarding
    goroutine sends both tweets to the subscriber. The [select] that
    took the error does end the run of [stream]: the body is closed,
    the request cancelled and the flag cleared. *)
Example decodeLoop_goes_on_after_decode_error :
  effectsOf (decodeLoop exRecords true) exSubscribed
  = [ESendErr exDecodeError; ESendTweet exBadTweet; ESendTweet exGoodTweet;
     ECloseTweetChan]
  /\ effectsOf (forward (tweetsOf (effectsOf (decodeLoop exRecords true) exSubscribed)))
               exSubscribed
     = [ESend (Some 0%nat) exBadTweet; ESend (Some 0%nat) exGoodTweet]
  /\ effectsOf (leaveSelect (SelErr exDecodeError)) exSubscribed
     = [ELog (LogErr "[Stream] got error, exiting: " exDecodeError);
        ECloseBody; ECancelRequest; ELog (LogMsg "stop streaming")]
  /\ streaming (client (after (leaveSelect (SelErr exDecodeError)) exSubscribed)) = false.
Proof. repeat split. Qed.

(** ** One run of stream at a time *)

Lemma setPhase_split (l1 l2 : list Phase) (q p : Phase) :
  setPhase (length l1) p (l1 ++ q :: l2) = l1 ++ p :: l2.
Proof.
  unfold setPhase. now rewrite firstn_length_app, skipn_succ_app.
Qed.


Lemma nth_setPhase (rs : list Phase) (i : nat) (q p : Phase) :
  nth_error rs i = Some q -> nth_error (setPhase i p rs) i = Some p.
Proof.
  intros Hn. apply nth_error_split in Hn as (l1 & l2 & -> & <-).
  rewrite setPhase_split, nth_error_app2 by lia. now rewrite Nat.sub_diag.
Qed.

Lemma closeChan_client {Remote : Type} (c : chan) (st : State Remote) :
  client (after (closeChan c) st) = client st.
Proof.
  unfold after, closeChan. destruct c as [n|]; [|reflexivity].
  destruct (existsb (Nat.eqb n) (closed st)); reflexivity.
Qed.

Lemma unsubscribeLocked_run {Remote : Type} (u : StreamSubscription)
      (st : State Remote) :
  let subs := remaining u (streamSubscribers (client st)) in
  let empty := Z.of_nat (length subs) =? 0 in
  unsubscribeLocked u st
  = (Ok empty,
     mkState (mkClient (Token (client st)) subs (streaming (client st))
                       (EnableAllTweetsChannel (client st)))
             (remote st) (made st) (closed st)
             (trace st
              ++ [EGo (GoCleanup (orphaned u (streamSubscribers (client st))) (Rule u))]
              ++ (if empty then [ELog (LogMsg "no subs left, sending stop")]
                  else []))).
Proof.
  cbn zeta. unfold unsubscribeLocked. unfold bind at 1.
  rewrite unsubscribeRemove_run. io.
  destruct (Z.of_nat (length (remaining u (streamSubscribers (client st)))) =? 0);
    cbn; rewrite <- ?app_assoc; reflexivity.
Qed.

Lemma leaveSelect_run {Remote : Type} (sel : Selected) (st : State Remote) :
  leaveSelect sel st
  = (Ok tt,
     mkState (mkClient (Token (client st)) (streamSubscribers (client st)) false
                       (EnableAllTweetsChannel (client st)))
             (remote st) (made st) (closed st)
             (trace st
              ++ [ELog (match sel with
                        | SelErr err => LogErr "[Stream] got error, exiting: " err
                        | SelStop => LogMsg "[Stream] got stop signal, exiting..."
                        end);
                  ECloseBody; ECancelRequest; ELog (LogMsg "stop streaming")])).
Proof.
  destruct sel; unfold leaveSelect, streamSelect, streamDeferred; io;
    rewrite <- !app_assoc; reflexivity.
Qed.

Lemma streamDeferred_false_run {Remote : Type} (st : State Remote) :
  streamDeferred false st
  = (Ok tt,
     mkState (mkClient (Token (client st)) (streamSubscribers (client st)) false
                       (EnableAllTweetsChannel (client st)))
             (remote st) (made st) (closed st)
             (trace st ++ [ECancelRequest; ELog (LogMsg "stop streaming")])).
Proof.
  unfold streamDeferred; io. rewrite <- !app_assoc. reflexivity.
Qed.

Lemma streamConnect_client {Remote : Type}
      (Do : Request -> Remote -> (error + Response) * Remote) (st : State Remote) :
  client (snd (streamConnect Do st)) = client st
  /\ (forall msg, fst (streamConnect Do st) <> Panic msg).
Proof.
  unfold streamConnect. io.
  destruct (Do _ (remote st)) as [[err|resp] remote']; cbn; split;
    try reflexivity; discriminate.
Qed.

Lemma StartStream_run {Remote : Type} (st : State Remote) :
  StartStream st
  = if streaming (client st) then (Ok tt, st)
    else (Ok tt,
          mkState (mkClient (Token (client st)) (streamSubscribers (client st)) true
                            (EnableAllTweetsChannel (client st)))
                  (remote st) (made st) (closed st)
                  (trace st ++ [ELog (LogMsg "starting stream"); EGo GoStream])).
Proof.
  unfold StartStream. io. destruct (streaming (client st)); cbn.
  - reflexivity.
  - rewrite <- !app_assoc. reflexivity.
Qed.






(** ** The last unsubscription stops the stream *)

Lemma remaining_single (s : StreamSubscription) :
  remaining s [s] = [] /\ orphaned s [s] = true.
Proof.
  unfold remaining, orphaned. cbn. rewrite sub_eqb_refl. cbn. split; reflexivity.
Qed.

(** The state in which [UnsubscribeStream] of the only subscription
    waits at its stop send. *)
Lemma unsubscribeLocked_last {Remote : Type} (s : StreamSubscription)
      (st : State Remote) :
  streamSubscribers (client st) = [s] ->
  unsubscribeLocked s st
  = (Ok true,
     mkState (mkClient (Token (client st)) [] (streaming (client st))
                       (EnableAllTweetsChannel (client st)))
             (remote st) (made st) (closed st)
             (trace st ++ [EGo (GoCleanup true (Rule s));
                           ELog (LogMsg "no subs left, sending stop")])).
Proof.
  intros Hs. rewrite unsubscribeLocked_run. cbn zeta. rewrite Hs.
  destruct (remaining_single s) as [-> ->]. reflexivity.
Qed.

(** C7. When [UnsubscribeStream] removes the only subscription of the
    Subscriber Set, the set is left empty and the call issues the stop
    send. With a run of [stream] in its [select], the call reaches
    the send holding the lock, the run takes the stop, and in the
    configuration that results the run has returned: its deferred
    calls have closed the response body, cancelled the request and
    cleared the running flag; then the subscriber's channel is
    closed and the lock released. *)
Theorem last_unsubscribe_stops_stream :
  forall (Remote : Type) (Do : Request -> Remote -> (error + Response) * Remote)
         (c : Config Remote) (s : StreamSubscription),
    streamSubscribers (client (state c)) = [s] ->
    streamSubscribers (client (after (UnsubscribeStream s) (state c))) = []
    /\ In ESendStop (effectsOf (UnsubscribeStream s) (state c))
    /\ forall i,
         waiting c = None ->
         nth_error (runs c) i = Some Selecting ->
         exists c1 c2,
           step Do (LUnsubscribe s) c = Some c1
           /\ waiting c1 = Some s
           /\ step Do (LStopTaken i) c1 = Some c2
           /\ streaming (client (state c2)) = false
           /\ nth_error (runs c2) i = Some Stopped
           /\ streamSubscribers (client (state c2)) = []
           /\ waiting c2 = None
           /\ trace (state c2)
              = trace (state c)
                ++ [EGo (GoCleanup true (Rule s));
                    ELog (LogMsg "no subs left, sending stop");
                    ESendStop;
                    ELog (LogMsg "[Stream] got stop signal, exiting...");
                    ECloseBody; ECancelRequest;
                    ELog (LogMsg "stop streaming")]
                ++ (if closable (Tweets s) (closed (state c))
                    then [EClose (Tweets s)] else []).
Proof.
  intros Remote Do c s Hs. split; [|split].
  - rewrite UnsubscribeStream_subscribers, Hs. apply remaining_single.
  - rewrite UnsubscribeStream_effects. cbn zeta. rewrite Hs.
    destruct (remaining_single s) as [-> ->]. cbn. auto.
  - intros i Hw Hn.
    eexists. eexists. split.
    { cbn [step]. rewrite Hw, (unsubscribeLocked_last s (state c) Hs). reflexivity. }
    split; [reflexivity|]. split.
    { cbn [step waiting runs]. rewrite Hn. reflexivity. }
    cbn [state runs waiting].
    unfold after. unfold bind at 1. cbn [emit]. unfold bind at 1.
    rewrite leaveSelect_run. cbn [client remote made closed trace Token
                                   streamSubscribers streaming EnableAllTweetsChannel].
    unfold closeChan, closable.
    destruct (Tweets s) as [n|]; cbn;
      [destruct (existsb (Nat.eqb n) (closed (state c)))|];
      cbn; rewrite <- ?app_assoc, ?app_nil_r; cbn;
      repeat split; try reflexivity; apply (nth_setPhase _ _ _ _ Hn).
Qed.

(** ** The moves and the methods agree *)

(** An [UnsubscribeStream] that leaves subscribers has no stop send:
    its move is the whole call. *)
Lemma step_unsubscribe_whole_call {Remote : Type}
      (Do : Request -> Remote -> (error + Response) * Remote)
      (c : Config Remote) (s : StreamSubscription) :
  waiting c = None ->
  remaining s (streamSubscribers (client (state c))) <> [] ->
  step Do (LUnsubscribe s) c
  = Some (mkConfig (after (UnsubscribeStream s) (state c)) (runs c) None).
Proof.
  intros Hw Hne. cbn [step]. rewrite Hw, unsubscribeLocked_run. cbn zeta.
  assert (Hz : (Z.of_nat (length (remaining s (streamSubscribers (client (state c)))))
                =? 0) = false).
  { apply Z.eqb_neq. destruct (remaining s _); [congruence|cbn [length]; lia]. }
  rewrite Hz. unfold after at 2. unfold UnsubscribeStream. unfold bind at 1.
  rewrite unsubscribeLocked_run. cbn zeta. rewrite Hz. reflexivity.
Qed.

(** An [UnsubscribeStream] that waits at its stop send returns only
    in the move in which a run of [stream] takes the stop; that run
    has then returned and the flag is cleared. *)
Lemma waiting_released_by_stop {Remote : Type}
      (Do : Request -> Remote -> (error + Response) * Remote)
      (l : Label) (c c' : Config Remote) (s : StreamSubscription) :
  waiting c = Some s ->
  step Do l c = Some c' ->
  waiting c' = None ->
  exists i,
    l = LStopTaken i
    /\ nth_error (runs c) i = Some Selecting
    /\ nth_error (runs c') i = Some Stopped
    /\ streaming (client (state c')) = false.
Proof.
  intros Hw Hstep Hrel.
  destruct l as [rule|u|i| |i|i|i e]; cbn [step] in Hstep; rewrite ?Hw in Hstep;
    try discriminate.
  - destruct (nth_error (runs c) i) as [[| |]|] eqn:Hn; try discriminate.
    injection Hstep as <-. exists i. split; [reflexivity|]. split; [exact Hn|].
    split; [apply (nth_setPhase _ _ _ _ Hn)|]. cbn [state].
    unfold after. unfold bind at 1. cbn [emit]. unfold bind at 1.
    rewrite leaveSelect_run.
    change (client (snd (closeChan (Tweets s) ?st))) with
      (client (after (closeChan (Tweets s)) st)).
    now rewrite closeChan_client.
  - destruct (nth_error (runs c) i) as [[| |]|]; try discriminate.
    injection Hstep as <-. cbn in Hrel. congruence.
  - destruct (nth_error (runs c) i) as [[| |]|]; try discriminate.
    destruct (streamConnect Do (state c)) as [[[resp|]|msg] st'];
      injection Hstep as <-; cbn in Hrel; congruence.
  - destruct (nth_error (runs c) i) as [[| |]|]; try discriminate.
    injection Hstep as <-. cbn in Hrel. congruence.
Qed.

Lemma stream_run {Remote : Type}
      (Do : Request -> Remote -> (error + Response) * Remote)
      (sel : Selected) (st : State Remote) :
  after (stream Do sel) st
  = match streamConnect Do st with
    | (Ok (Some _), st') =>
        after (leaveSelect sel)
              (after (bind (emit (EGo GoDecode)) (fun _ => emit (EGo GoFanOut))) st')
    | (Ok None, st') => after (streamDeferred false) st'
    | (Panic _, st') => st'
    end.
Proof.
  unfold after, stream. unfold bind at 1.
  destruct (streamConnect Do st) as [[[resp|]|msg] st']; reflexivity.
Qed.

(** The move that answers the request of a run and the move in which
    its [select] takes an error make up the method [stream]. *)
Lemma steps_are_stream {Remote : Type}
      (Do : Request -> Remote -> (error + Response) * Remote)
      (c c1 : Config Remote) (i : nat) (e : error) :
  nth_error (runs c) i = Some Connecting ->
  step Do (LConnect i) c = Some c1 ->
  (nth_error (runs c1) i = Some Stopped
   /\ state c1 = after (stream Do (SelErr e)) (state c))
  \/ (nth_error (runs c1) i = Some Selecting
      /\ exists c2,
           step Do (LDecodeError i e) c1 = Some c2
           /\ nth_error (runs c2) i = Some Stopped
           /\ state c2 = after (stream Do (SelErr e)) (state c)).
Proof.
  intros Hn Hstep. cbn [step] in Hstep. rewrite Hn in Hstep.
  destruct (streamConnect_client Do (state c)) as [_ Hnp].
  rewrite !stream_run.
  destruct (streamConnect Do (state c)) as [[[resp|]|msg] st'] eqn:Hc;
    cbn [fst snd] in *; injection Hstep as <-.
  - right. split; [apply (nth_setPhase _ _ _ _ Hn)|].
    eexists. split.
    { cbn [step runs]. rewrite (nth_setPhase _ _ _ _ Hn). reflexivity. }
    split.
    + cbn [runs]. apply (nth_setPhase _ i Selecting Stopped).
      apply (nth_setPhase _ _ _ _ Hn).
    + reflexivity.
  - left. split; [apply (nth_setPhase _ _ _ _ Hn)|reflexivity].
  - exfalso. now apply (Hnp msg).
Qed.

(** ** Creating a rule twice against the reference remote side *)

Lemma find_app_none {A : Type} (f : A -> bool) (l : list A) (x : A) :
  find f l = None -> f x = true -> find f (l ++ [x]) = Some x.
Proof.
  induction l as [|y l IH]; cbn; intros Hf Hx.
  - now rewrite Hx.
  - destruct (f y); [discriminate|]. now apply IH.
Qed.

(** One call against the reference remote side. *)
Lemma CreateStreamRule_on_server (options : list string) (st : State Server) :
  CreateStreamRule serverDo options st
  = match find (fun x => String.eqb (rule_Rule x) (ruleBuilder options))
               (registered (remote st)) with
    | Some existing =>
        (Ok (existing, None),
         mkState (client st) (remote st) (made st) (closed st)
                 (trace st ++ [ERequest (createRequest (Token (client st)) options)]))
    | None =>
        (Ok (mkStreamRule (idOf (issued (remote st))) (ruleBuilder options), None),
         mkState (client st)
                 (mkServer (registered (remote st)
                            ++ [mkStreamRule (idOf (issued (remote st)))
                                             (ruleBuilder options)])
                           (S (issued (remote st))))
                 (made st) (closed st)
                 (trace st ++ [ERequest (createRequest (Token (client st)) options)]))
    end.
Proof.
  destruct (find _ (registered (remote st))) as [existing|] eqn:Hf.
  - rewrite (CreateStreamRule_answered serverDo options st
               (mkResponse StatusCreated
                  (rulesBody (mkStreamRuleResponse [] 0 1 [existing])))
               (remote st))
      with (srr := mkStreamRuleResponse [] 0 1 [existing]);
      try reflexivity.
    unfold serverDo, createRequest. cbn [ReqBody rule_Rule]. now rewrite Hf.
  - rewrite (CreateStreamRule_answered serverDo options st
               (mkResponse StatusCreated
                  (rulesBody (mkStreamRuleResponse
                                [mkStreamRule (idOf (issued (remote st)))
                                              (ruleBuilder options)] 1 0 [])))
               (mkServer (registered (remote st)
                          ++ [mkStreamRule (idOf (issued (remote st)))
                                           (ruleBuilder options)])
                         (S (issued (remote st)))))
      with (srr := mkStreamRuleResponse
                     [mkStreamRule (idOf (issued (remote st))) (ruleBuilder options)]
                     1 0 []);
      try reflexivity.
    unfold serverDo, createRequest. cbn [ReqBody rule_Rule]. now rewrite Hf.
Qed.

(** For every list of options and every state of the reference remote
    side, two calls of [CreateStreamRule] with the same options return
    the same rule, with no error, and the second call has no new
    identifier issued. *)
Lemma CreateStreamRule_twice_on_server (options : list string)
      (st : State Server) :
  exists r,
    fst (CreateStreamRule serverDo options st) = Ok (r, None)
    /\ fst (CreateStreamRule serverDo options
              (after (CreateStreamRule serverDo options) st)) = Ok (r, None)
    /\ issued (remote (after (CreateStreamRule serverDo options)
                         (after (CreateStreamRule serverDo options) st)))
       = issued (remote (after (CreateStreamRule serverDo options) st)).
Proof.
  unfold after. rewrite (CreateStreamRule_on_server options st).
  destruct (find _ (registered (remote st))) as [existing|] eqn:Hf; cbn [fst snd].
  - exists existing. rewrite CreateStreamRule_on_server. cbn [remote].
    rewrite Hf. auto.
  - eexists. rewrite CreateStreamRule_on_server. cbn [remote registered].
    rewrite (find_app_none _ _ _ Hf) by (cbn; apply String.eqb_refl).
    auto.
Qed.

(** ** The theorems at concrete inputs *)

(** [UnsubscribeStream_deletes_rule_iff_orphaned] with two
    subscribers on different rules: removing the first starts the
    cleanup with the flag set, and the cleanup sends the deletion of
    rule "1". *)
Lemma UnsubscribeStream_deletes_rule_witness :
  NoDup (streamSubscribers (client exTwoSubs))
  /\ In exSub1 (streamSubscribers (client exTwoSubs))
  /\ goroutinesOf (effectsOf (UnsubscribeStream exSub1) exTwoSubs)
     = [GoCleanup true exRule1]
  /\ requestsOf (effectsOf (orphanCleanup serverDo true exRule1) exTwoSubs)
     = [deleteRequest "token" ["1"%string]].
Proof.
  assert (Hnd : NoDup (streamSubscribers (client exTwoSubs))).
  { cbn. repeat constructor; cbn; intuition discriminate. }
  assert (Hin : In exSub1 (streamSubscribers (client exTwoSubs))).
  { cbn. left. reflexivity. }
  destruct (UnsubscribeStream_deletes_rule_iff_orphaned
              Server serverDo exTwoSubs exSub1 Hnd Hin) as (Horph & _).
  split; [exact Hnd|]. split; [exact Hin|].
  assert (Hother : forall sub,
             In sub (streamSubscribers
                       (client (after (UnsubscribeStream exSub1) exTwoSubs))) ->
             rule_ID (Rule sub) <> rule_ID (Rule exSub1)).
  { cbn. intros sub [<-|[]]. cbn. discriminate. }
  destruct (Horph Hother) as [Hgo Hreq].
  split; [exact Hgo|]. exact (Hreq exTwoSubs).
Defined.

(** [CreateStreamRule_duplicate_returns_existing] against the
    reference remote side: the first call creates rule "0", the
    second is answered as a duplicate and returns rule "0" again. *)
Lemma CreateStreamRule_duplicate_witness :
  fst (CreateStreamRule serverDo ["foo"%string] exState)
  = Ok (mkStreamRule "0" " foo", None)
  /\ fst (CreateStreamRule serverDo ["foo"%string]
            (after (CreateStreamRule serverDo ["foo"%string]) exState))
     = Ok (mkStreamRule "0" " foo", None)
  /\ rule_ID (mkStreamRule "0" " foo") = rule_ID (mkStreamRule "0" " foo").
Proof.
  eapply (proj1 (proj2 (CreateStreamRule_duplicate_returns_existing Server serverDo))
            ["foo"%string] exState
            (mkResponse StatusCreated
               (rulesBody (mkStreamRuleResponse [mkStreamRule "0" " foo"] 1 0 [])))
            (mkServer [mkStreamRule "0" " foo"] 1)
            (mkStreamRuleResponse [mkStreamRule "0" " foo"] 1 0 [])
            (mkStreamRule "0" " foo") []
            (mkResponse StatusCreated
               (rulesBody (mkStreamRuleResponse [] 0 1 [mkStreamRule "0" " foo"])))
            (mkServer [mkStreamRule "0" " foo"] 1)
            (mkStreamRuleResponse [] 0 1 [mkStreamRule "0" " foo"])
            (mkStreamRule "0" " foo") []);
    try reflexivity.
  cbn. discriminate.
Defined.

(** [last_unsubscribe_stops_stream] with one subscriber and a run of
    [stream] in its [select]. *)
Lemma last_unsubscribe_stops_stream_witness :
  streamSubscribers (client (state exStreaming)) = [exSub1]
  /\ In ESendStop (effectsOf (UnsubscribeStream exSub1) (state exStreaming))
  /\ exists c2,
       steps serverDo [LUnsubscribe exSub1; LStopTaken 0] exStreaming = Some c2
       /\ streaming (client (state c2)) = false
       /\ nth_error (runs c2) 0 = Some Stopped.
Proof.
  destruct (last_unsubscribe_stops_stream Server serverDo exStreaming exSub1 eq_refl)
    as (_ & Hstop & Hrun).
  split; [reflexivity|]. split; [exact Hstop|].
  destruct (Hrun 0%nat eq_refl eq_refl)
    as (c1 & c2 & H1 & _ & H2 & Hflag & Hphase & _).
  exists c2. cbn [steps]. rewrite H1, H2. auto.
Defined.


(** [convertToTweet_unresolved_refs_omitted] on a tweet whose author,
    media key and poll ID the includes do not know. *)
Lemma convertToTweet_unresolved_witness :
  TweetAuthor (convertToTweet exDangling exIncludes None) = zeroAuthor
  /\ Images (convertToTweet exDangling exIncludes None) = []
  /\ HasVideo (convertToTweet exDangling exIncludes None) = false
  /\ Poll (convertToTweet exDangling exIncludes None) = [].
Proof.
  destruct (convertToTweet_unresolved_refs_omitted exDangling exIncludes None)
    as (_ & Ha & Hm & Hp).
  split; [apply Ha|split; [apply Hm|split; [apply Hm|apply Hp]]].
  - intros u [<-|[]]. cbn. discriminate.
  - intros k [<-|[]]. reflexivity.
  - intros k [<-|[]]. reflexivity.
  - intros i [<-|[]]. reflexivity.
Defined.

(** * Further properties of the code *)

(** ** convertToTweet: what is resolved *)

(** X1. The author of the converted tweet is taken from the first
    user of the includes whose ID is the tweet's author ID; users
    after it, also with that ID, are not looked at. *)
Theorem convertToTweet_author_first_match :
  forall (tw : tweet) (incl : includes) (matches : option (list StreamRule))
         (before rest : list user) (u : user),
    Users incl = before ++ u :: rest ->
    u_ID u = AuthorID tw ->
    (forall v, In v before -> u_ID v <> AuthorID tw) ->
    TweetAuthor (convertToTweet tw incl matches)
    = mkAuthor (u_Name u) (u_Handle u) (u_Picture u) (u_Verified u) (u_ID u).
Proof.
  intros tw incl matches before rest u HU Hid Hbefore. cbn. rewrite HU.
  clear HU. induction before as [|v before IH]; cbn.
  - rewrite Hid, String.eqb_refl. reflexivity.
  - destruct (String.eqb_spec (u_ID v) (AuthorID tw)) as [E|_].
    + exfalso. apply (Hbefore v); [now left|exact E].
    + apply IH. intros w Hw. apply Hbefore. now right.
Qed.

Lemma mediaInner_images (k : string) (items : list media) (acc : mediaAcc) :
  images (mediaInner k items acc) = images acc ++ photosOf items k.
Proof.
  revert acc; induction items as [|m rest IH]; intros acc; cbn.
  - now rewrite app_nil_r.
  - rewrite IH. unfold mediaSwitch.
    destruct (String.eqb k (MediaKey m)); cbn; [|reflexivity].
    destruct (String.eqb (Type_ m) "photo"); cbn.
    + now rewrite <- app_assoc.
    + destruct (String.eqb (Type_ m) "video"); reflexivity.
Qed.

Lemma mediaOuter_images (keys : list string) (items : list media) (acc : mediaAcc) :
  images (mediaOuter keys items acc) = images acc ++ flat_map (photosOf items) keys.
Proof.
  revert acc; induction keys as [|k rest IH]; intros acc; cbn.
  - now rewrite app_nil_r.
  - rewrite IH, mediaInner_images. now rewrite <- app_assoc.
Qed.

(** X2. The images of the converted tweet are the URLs of the media
    entries of type photo whose key is one of the tweet's media keys:
    key by key in the order of the tweet's keys, for each key in the
    order of the includes, an entry once for every key that names
    it. *)
Theorem convertToTweet_images :
  forall (tw : tweet) (incl : includes) (matches : option (list StreamRule)),
    Images (convertToTweet tw incl matches)
    = flat_map (photosOf (Media incl)) (MediaKeys (Attachments tw)).
Proof.
  intros tw incl matches. cbn. now rewrite mediaOuter_images.
Qed.

Lemma video_is_not_photo (s : string) :
  String.eqb s "video" = true -> String.eqb s "photo" = false.
Proof. intros H. apply String.eqb_eq in H. now subst s. Qed.

Lemma last_default_irrelevant {A : Type} (l : list A) (x d d' : A) :
  last (x :: l) d = last (x :: l) d'.
Proof.
  revert x; induction l as [|y l IH]; intros x; [reflexivity|].
  change (last (y :: l) d = last (y :: l) d'). apply IH.
Qed.

Lemma last_cons_default {A : Type} (l : list A) (x d : A) :
  last (x :: l) d = last l x.
Proof.
  destruct l as [|y l]; [reflexivity|].
  change (last (y :: l) d = last (y :: l) x). apply last_default_irrelevant.
Qed.

Lemma mediaInner_video (k : string) (items : list media) (acc : mediaAcc) :
  hasVideo (mediaInner k items acc)
  = hasVideo acc || negb (match previewsOf items k with [] => true | _ => false end)
  /\ videoPreview (mediaInner k items acc)
     = last (previewsOf items k) (videoPreview acc).
Proof.
  revert acc; induction items as [|m rest IH]; intros acc; cbn.
  - now rewrite orb_false_r.
  - destruct (IH (if String.eqb k (MediaKey m) then mediaSwitch acc m else acc))
      as [Hh Hp]. rewrite Hh, Hp. clear IH Hh Hp. unfold mediaSwitch.
    destruct (String.eqb k (MediaKey m)); cbn; [|split; reflexivity].
    destruct (String.eqb (Type_ m) "video") eqn:Ev.
    + rewrite (video_is_not_photo _ Ev). cbn.
      rewrite orb_true_r. split; [reflexivity|].
      exact (eq_sym (last_cons_default _ _ _)).
    + destruct (String.eqb (Type_ m) "photo"); cbn; split; reflexivity.
Qed.

Lemma last_app_default {A : Type} (l k : list A) (d : A) :
  last (l ++ k) d = last k (last l d).
Proof.
  revert d; induction l as [|x l IH]; intros d; [reflexivity|].
  change ((x :: l) ++ k) with (x :: (l ++ k)).
  now rewrite !last_cons_default, IH.
Qed.

Lemma mediaOuter_video (keys : list string) (items : list media) (acc : mediaAcc) :
  hasVideo (mediaOuter keys items acc)
  = hasVideo acc
    || negb (match flat_map (previewsOf items) keys with [] => true | _ => false end)
  /\ videoPreview (mediaOuter keys items acc)
     = last (flat_map (previewsOf items) keys) (videoPreview acc).
Proof.
  revert acc; induction keys as [|k rest IH]; intros acc; cbn [mediaOuter flat_map].
  - cbn. now rewrite orb_false_r.
  - destruct (IH (mediaInner k items acc)) as [Hh Hp].
    destruct (mediaInner_video k items acc) as [Hh1 Hp1].
    rewrite Hh, Hp, Hh1, Hp1, last_app_default. split; [|reflexivity].
    destruct (previewsOf items k); cbn; [now rewrite orb_false_r|].
    now rewrite orb_true_r.
Qed.

Lemma in_previewsOf (items : list media) (k url : string) :
  In url (previewsOf items k)
  <-> exists m, In m items /\ MediaKey m = k /\ Type_ m = "video"%string
                /\ VideoPreviewImageURL m = url.
Proof.
  unfold previewsOf. rewrite in_flat_map. split.
  - intros (m & Hm & Hin). exists m.
    destruct (String.eqb_spec k (MediaKey m)) as [Ek|]; cbn in Hin; [|destruct Hin].
    destruct (String.eqb_spec (Type_ m) "video") as [Et|]; cbn in Hin; [|destruct Hin].
    destruct Hin as [<-|[]]. auto.
  - intros (m & Hm & Hk & Ht & Hu). exists m. split; [exact Hm|].
    subst k. rewrite Ht, String.eqb_refl. cbn. now left.
Qed.

(** X3. The converted tweet has a video exactly when a media key of
    the tweet names an entry of the includes of type video, and its
    video preview is the preview URL of the last such entry (going
    through the tweet's keys in order and, for each, through the
    includes in order), the empty string when there is none. *)
Theorem convertToTweet_video :
  forall (tw : tweet) (incl : includes) (matches : option (list StreamRule)),
    (HasVideo (convertToTweet tw incl matches) = true
     <-> exists k m,
           In k (MediaKeys (Attachments tw)) /\ In m (Media incl)
           /\ MediaKey m = k /\ Type_ m = "video"%string)
    /\ VideoPreviewURL (convertToTweet tw incl matches)
       = last (flat_map (previewsOf (Media incl)) (MediaKeys (Attachments tw)))
              EmptyString.
Proof.
  intros tw incl matches. cbn.
  destruct (mediaOuter_video (MediaKeys (Attachments tw)) (Media incl)
              (mkMediaAcc [] false EmptyString)) as [Hh Hp].
  rewrite Hh, Hp. cbn. split; [|reflexivity]. split.
  - intros H.
    destruct (flat_map (previewsOf (Media incl)) (MediaKeys (Attachments tw)))
      as [|url l] eqn:E; [discriminate|].
    assert (Hin : In url (flat_map (previewsOf (Media incl))
                                   (MediaKeys (Attachments tw))))
      by (rewrite E; now left).
    apply in_flat_map in Hin as (k & Hk & Hurl).
    apply in_previewsOf in Hurl as (m & Hm & Hkey & Ht & _).
    exists k, m. auto.
  - intros (k & m & Hk & Hm & Hkey & Ht).
    assert (Hin : In (VideoPreviewImageURL m)
                     (flat_map (previewsOf (Media incl))
                               (MediaKeys (Attachments tw)))).
    { apply in_flat_map. exists k. split; [exact Hk|].
      apply in_previewsOf. exists m. auto. }
    destruct (flat_map _ _); [destruct Hin|reflexivity].
Qed.

Lemma pollInner_last (i : string) (polls : list poll) (acc : list PollOption) :
  pollInner i polls acc = last (pollsOf polls i) acc.
Proof.
  revert acc; induction polls as [|p rest IH]; intros acc; cbn; [reflexivity|].
  rewrite IH. destruct (String.eqb (p_ID p) i); [|reflexivity].
  exact (eq_sym (last_cons_default _ _ _)).
Qed.

Lemma pollOuter_last (ids : list string) (polls : list poll) (acc : list PollOption) :
  pollOuter ids polls acc = last (flat_map (pollsOf polls) ids) acc.
Proof.
  revert acc; induction ids as [|i rest IH]; intros acc; cbn; [reflexivity|].
  now rewrite IH, pollInner_last, last_app_default.
Qed.

(** X4. The poll of the converted tweet is the option list of the
    last poll of the includes that a poll ID of the tweet names (going
    through the tweet's poll IDs in order and, for each, through the
    includes in order): later matches overwrite earlier ones, option
    lists are never merged, and there are no options when nothing
    matches. *)
Theorem convertToTweet_poll_last_match :
  forall (tw : tweet) (incl : includes) (matches : option (list StreamRule)),
    Poll (convertToTweet tw incl matches)
    = last (flat_map (pollsOf (Polls incl)) (PollIDs (Attachments tw))) [].
Proof.
  intros tw incl matches. cbn. apply pollOuter_last.
Qed.

(** ** tweetsFromSearchResult *)

(** X5. [tweetsFromSearchResult] gives one tweet for every tweet of
    the answer, in the same order (text, ID, creation time and like
    count of the i-th result are those of the i-th tweet of the
    answer), every one converted against the includes of the whole
    answer, and none carrying a rule ID. *)
Theorem tweetsFromSearchResult_pointwise :
  forall (response : searchResponse),
    length (tweetsFromSearchResult response) = length (s_Tweets response)
    /\ map Text (tweetsFromSearchResult response) = map t_Text (s_Tweets response)
    /\ map ID (tweetsFromSearchResult response) = map t_ID (s_Tweets response)
    /\ map Created (tweetsFromSearchResult response) = map CreatedAt (s_Tweets response)
    /\ map Likes (tweetsFromSearchResult response)
       = map (fun t => m_Likes (Metrics t)) (s_Tweets response)
    /\ (forall i t, nth_error (s_Tweets response) i = Some t ->
                    nth_error (tweetsFromSearchResult response) i
                    = Some (convertToTweet t (s_Includes response) None))
    /\ forall t, In t (tweetsFromSearchResult response) -> RuleIDs t = [].
Proof.
  intros response. unfold tweetsFromSearchResult.
  rewrite length_map, !map_map. cbn.
  repeat split; try reflexivity.
  - intros i t Hn. now rewrite nth_error_map, Hn.
  - intros t Hin. apply in_map_iff in Hin as (x & <- & _). reflexivity.
Qed.

(** ** GetVideoURL, once the answer is decoded *)

Lemma firstMP4_none (variants : list variant) :
  (forall v, In v variants -> v_ContentType v <> "video/mp4"%string) ->
  firstMP4 variants = (EmptyString, Some ErrNoContentTypeMatch).
Proof.
  induction variants as [|x l IH]; intros H; cbn; [reflexivity|].
  destruct (String.eqb_spec (v_ContentType x) "video/mp4") as [E|_].
  - exfalso. apply (H x); [now left|exact E].
  - apply IH. intros v Hv. apply H. now right.
Qed.

Lemma firstMP4_first (before rest : list variant) (v : variant) :
  v_ContentType v = "video/mp4"%string ->
  (forall w, In w before -> v_ContentType w <> "video/mp4"%string) ->
  firstMP4 (before ++ v :: rest) = (v_URL v, None).
Proof.
  intros Hv. induction before as [|x l IH]; intros H; cbn.
  - now rewrite Hv.
  - destruct (String.eqb_spec (v_ContentType x) "video/mp4") as [E|_].
    + exfalso. apply (H x); [now left|exact E].
    + apply IH. intros w Hw. apply H. now right.
Qed.

Lemma firstMP4_found_iff (variants : list variant) :
  snd (firstMP4 variants) = None
  <-> exists v, In v variants /\ v_ContentType v = "video/mp4"%string.
Proof.
  induction variants as [|x l IH]; cbn.
  - split; [discriminate|]. intros (v & [] & _).
  - destruct (String.eqb_spec (v_ContentType x) "video/mp4") as [E|N]; cbn.
    + split; [|reflexivity]. intros _. exists x. auto.
    + rewrite IH. split.
      * intros (v & Hv & Hc). exists v. auto.
      * intros (v & [<-|Hv] & Hc); [contradiction|]. exists v. auto.
Qed.

(** X6. Of a decoded answer [GetVideoURL] uses the first media entry
    only. It returns a URL and no error exactly when that entry has a
    variant of content type video/mp4, and the URL is then that of the
    first such variant; with no media it returns [ErrEmptyMedia], with
    a first entry without variants [ErrEmptyVariants], with variants
    but none of that type [ErrNoContentTypeMatch], and the empty
    string in each of these cases. *)
Theorem videoURLOf_first_mp4_of_first_media :
  forall (tweetInfo : ShowTweetResponse),
    match ExtMedia tweetInfo with
    | [] => videoURLOf tweetInfo = (EmptyString, Some ErrEmptyMedia)
    | m :: others =>
        videoURLOf tweetInfo = videoURLOf (mkShowTweetResponse [m])
        /\ (Variants m = [] ->
            videoURLOf tweetInfo = (EmptyString, Some ErrEmptyVariants))
        /\ (Variants m <> [] ->
            (forall v, In v (Variants m) -> v_ContentType v <> "video/mp4"%string) ->
            videoURLOf tweetInfo = (EmptyString, Some ErrNoContentTypeMatch))
        /\ (forall before v rest,
               Variants m = before ++ v :: rest ->
               v_ContentType v = "video/mp4"%string ->
               (forall w, In w before -> v_ContentType w <> "video/mp4"%string) ->
               videoURLOf tweetInfo = (v_URL v, None))
        /\ (snd (videoURLOf tweetInfo) = None
            <-> exists v, In v (Variants m) /\ v_ContentType v = "video/mp4"%string)
    end.
Proof.
  intros [media]. unfold videoURLOf. cbn [ExtMedia].
  destruct media as [|m others]; [reflexivity|].
  split; [reflexivity|]. split; [intros ->; reflexivity|].
  split; [|split].
  - intros Hne Hnone. rewrite (firstMP4_none _ Hnone).
    destruct (Variants m); [congruence|reflexivity].
  - intros before v rest Hv Hc Hb. rewrite Hv, (firstMP4_first _ _ _ Hc Hb).
    now destruct before.
  - rewrite <- firstMP4_found_iff. now destruct (Variants m).
Qed.

(** ** Every call is one authenticated request *)

Section CallsSendOneRequest.

Context {Remote : Type}.
Variable Do : Request -> Remote -> (error + Response) * Remote.
Variable newRequestError : string -> option error.
Variable QueryEscape : string -> string.
Variable decodeSearch : body -> error + searchResponse.
Variable decodeUser : body -> error + Profile.
Variable decodeShowTweet : body -> error + ShowTweetResponse.
Variable rulesLeft : body -> list StreamRule.

Lemma CreateStreamRule_one_request (options : list string) (st : State Remote) :
  requestsOf (effectsOf (CreateStreamRule Do options) st)
  = [createRequest (Token (client st)) options]
  /\ client (after (CreateStreamRule Do options) st) = client st.
Proof.
  unfold effectsOf, after, CreateStreamRule, createRequest. io.
  destruct (Do _ (remote st)) as [[err|resp] remote']; cbn.
  - now rewrite skipn_length_app.
  - destruct (negb (StatusCode resp =? StatusCreated)); cbn.
    + now rewrite skipn_length_app.
    + destruct (decodeRules (Body resp)) as [err|srr]; cbn.
      * now rewrite <- app_assoc, skipn_length_app.
      * destruct (negb (Created_ srr =? 1) && _);
          [destruct (Errors srr)|destruct (Rules srr)]; cbn;
          now rewrite skipn_length_app.
Qed.

Lemma DeleteStreamRules_one_request (rules : list StreamRule) (st : State Remote) :
  requestsOf (effectsOf (DeleteStreamRules Do rules) st)
  = [deleteRequest (Token (client st)) (map rule_ID rules)]
  /\ client (after (DeleteStreamRules Do rules) st) = client st.
Proof.
  rewrite DeleteStreamRules_requests. split; [reflexivity|].
  unfold after, DeleteStreamRules. io.
  destruct (Do _ (remote st)) as [[err|resp] remote']; cbn; [reflexivity|].
  destruct (readAll (Body resp)); cbn; [reflexivity|].
  destruct (negb (StatusCode resp =? StatusOK)); reflexivity.
Qed.

Lemma GetStreamRules_one_request (st : State Remote) :
  requestsOf (effectsOf (GetStreamRules Do rulesLeft) st)
  = [getRequest (Token (client st)) rulesURL]
  /\ client (after (GetStreamRules Do rulesLeft) st) = client st.
Proof.
  unfold effectsOf, after, GetStreamRules, getRequest. io.
  destruct (Do _ (remote st)) as [[err|resp] remote']; cbn.
  - now rewrite skipn_length_app.
  - destruct (decodeRules (Body resp)); cbn; now rewrite skipn_length_app.
Qed.

Lemma streamConnect_one_request (st : State Remote) :
  requestsOf (effectsOf (streamConnect Do) st)
  = [getRequest (Token (client st)) streamURL]
  /\ client (after (streamConnect Do) st) = client st.
Proof.
  unfold effectsOf, after, streamConnect, getRequest. io.
  destruct (Do _ (remote st)) as [[err|resp] remote']; cbn;
    now rewrite <- ?app_assoc, skipn_length_app.
Qed.

Lemma SearchRecent_one_request (options : list string) (st : State Remote) :
  requestsOf (effectsOf (SearchRecent Do newRequestError QueryEscape decodeSearch
                                      options) st)
  = match newRequestError (searchURL (QueryEscape (queryBuilder options))) with
    | Some _ => []
    | None => [getRequest (Token (client st))
                          (searchURL (QueryEscape (queryBuilder options)))]
    end
  /\ client (after (SearchRecent Do newRequestError QueryEscape decodeSearch options) st)
     = client st.
Proof.
  unfold effectsOf, after, SearchRecent, getRequest.
  destruct (newRequestError _); io.
  - now rewrite skipn_all.
  - destruct (Do _ (remote st)) as [[err|resp] remote']; cbn.
    + now rewrite skipn_length_app.
    + destruct (decodeSearch (Body resp)); cbn; now rewrite skipn_length_app.
Qed.

Lemma GetProfile_one_request (userID : string) (st : State Remote) :
  requestsOf (effectsOf (GetProfile Do newRequestError decodeUser userID) st)
  = match newRequestError (profileURL userID) with
    | Some _ => []
    | None => [getRequest (Token (client st)) (profileURL userID)]
    end
  /\ client (after (GetProfile Do newRequestError decodeUser userID) st) = client st.
Proof.
  unfold effectsOf, after, GetProfile, getRequest.
  destruct (newRequestError _); io.
  - now rewrite skipn_all.
  - destruct (Do _ (remote st)) as [[err|resp] remote']; cbn.
    + now rewrite skipn_length_app.
    + destruct (decodeUser (Body resp)); cbn; now rewrite skipn_length_app.
Qed.

Lemma GetVideoURL_one_request (tweetID : string) (st : State Remote) :
  requestsOf (effectsOf (GetVideoURL Do newRequestError decodeShowTweet tweetID) st)
  = match newRequestError (showTweetURL tweetID) with
    | Some _ => []
    | None => [getRequest (Token (client st)) (showTweetURL tweetID)]
    end
  /\ client (after (GetVideoURL Do newRequestError decodeShowTweet tweetID) st)
     = client st.
Proof.
  unfold effectsOf, after, GetVideoURL, getRequest.
  destruct (newRequestError _); io.
  - now rewrite skipn_all.
  - destruct (Do _ (remote st)) as [[err|resp] remote']; cbn.
    + now rewrite skipn_length_app.
    + destruct (decodeShowTweet (Body resp)); cbn; now rewrite skipn_length_app.
Qed.

(** X7. Every method that talks to the API sends exactly one request
    per call, whatever the answer and also when the call ends in an
    error or a panic (none when [http.NewRequest] refuses the URL
    built from the argument), the request carries the header
    Authorization: Bearer followed by the client's token, and the
    call leaves the client struct as it was. *)
Theorem every_call_sends_one_authenticated_request :
  forall (st : State Remote) (options : list string) (rules : list StreamRule)
         (userID tweetID : string),
    (requestsOf (effectsOf (CreateStreamRule Do options) st)
     = [createRequest (Token (client st)) options]
     /\ client (after (CreateStreamRule Do options) st) = client st)
    /\ (requestsOf (effectsOf (DeleteStreamRules Do rules) st)
        = [deleteRequest (Token (client st)) (map rule_ID rules)]
        /\ client (after (DeleteStreamRules Do rules) st) = client st)
    /\ (requestsOf (effectsOf (GetStreamRules Do rulesLeft) st)
        = [getRequest (Token (client st)) rulesURL]
        /\ client (after (GetStreamRules Do rulesLeft) st) = client st)
    /\ (requestsOf (effectsOf (streamConnect Do) st)
        = [getRequest (Token (client st)) streamURL]
        /\ client (after (streamConnect Do) st) = client st)
    /\ (requestsOf (effectsOf (SearchRecent Do newRequestError QueryEscape
                                            decodeSearch options) st)
        = match newRequestError (searchURL (QueryEscape (queryBuilder options))) with
          | Some _ => []
          | None => [getRequest (Token (client st))
                                (searchURL (QueryEscape (queryBuilder options)))]
          end
        /\ client (after (SearchRecent Do newRequestError QueryEscape decodeSearch
                                       options) st) = client st)
    /\ (requestsOf (effectsOf (GetProfile Do newRequestError decodeUser userID) st)
        = match newRequestError (profileURL userID) with
          | Some _ => []
          | None => [getRequest (Token (client st)) (profileURL userID)]
          end
        /\ client (after (GetProfile Do newRequestError decodeUser userID) st)
           = client st)
    /\ (requestsOf (effectsOf (GetVideoURL Do newRequestError decodeShowTweet
                                           tweetID) st)
        = match newRequestError (showTweetURL tweetID) with
          | Some _ => []
          | None => [getRequest (Token (client st)) (showTweetURL tweetID)]
          end
        /\ client (after (GetVideoURL Do newRequestError decodeShowTweet tweetID) st)
           = client st).
Proof.
  intros st options rules userID tweetID.
  split; [apply CreateStreamRule_one_request|].
  split; [apply DeleteStreamRules_one_request|].
  split; [apply GetStreamRules_one_request|].
  split; [apply streamConnect_one_request|].
  split; [apply SearchRecent_one_request|].
  split; [apply GetProfile_one_request|apply GetVideoURL_one_request].
Qed.

End CallsSendOneRequest.

(** ** The status of the answer *)

Section CallsAndStatus.

Context {Remote : Type}.
Variable Do : Request -> Remote -> (error + Response) * Remote.
Variable newRequestError : string -> option error.
Variable QueryEscape : string -> string.
Variable decodeSearch : body -> error + searchResponse.
Variable decodeUser : body -> error + Profile.
Variable decodeShowTweet : body -> error + ShowTweetResponse.
Variable rulesLeft : body -> list StreamRule.

(** X8. [GetStreamRules], [SearchRecent], [GetProfile] and
    [GetVideoURL] never look at the status of the answer: with the
    status of every answer replaced by any other, each returns the
    same value and the same error. An answer of status 401 or 500
    whose body decodes is returned like one of status 200. *)
Theorem read_calls_ignore_status :
  forall (code : Z) (st : State Remote) (options : list string)
         (userID tweetID : string),
    fst (GetStreamRules (withStatus code Do) rulesLeft st)
    = fst (GetStreamRules Do rulesLeft st)
    /\ fst (SearchRecent (withStatus code Do) newRequestError QueryEscape
                         decodeSearch options st)
       = fst (SearchRecent Do newRequestError QueryEscape decodeSearch options st)
    /\ fst (GetProfile (withStatus code Do) newRequestError decodeUser userID st)
       = fst (GetProfile Do newRequestError decodeUser userID st)
    /\ fst (GetVideoURL (withStatus code Do) newRequestError decodeShowTweet tweetID st)
       = fst (GetVideoURL Do newRequestError decodeShowTweet tweetID st).
Proof.
  intros code st options userID tweetID.
  unfold GetStreamRules, SearchRecent, GetProfile, GetVideoURL, withStatus.
  repeat split;
    try destruct (newRequestError _); io; try reflexivity;
    destruct (Do _ (remote st)) as [[err|resp] remote']; reflexivity.
Qed.

(** X9. [DeleteStreamRules] never panics, and it returns a nil error
    exactly when the request is answered, the body of the answer can
    be read and the status is StatusOK; the IDs of the rules play no
    part in that, nor does the number of rules (an empty list is sent
    like any other). *)
Theorem DeleteStreamRules_nil_iff :
  forall (rules : list StreamRule) (st : State Remote),
    (exists err, fst (DeleteStreamRules Do rules st) = Ok err)
    /\ (fst (DeleteStreamRules Do rules st) = Ok None
        <-> exists resp remote' data,
              Do (deleteRequest (Token (client st)) (map rule_ID rules)) (remote st)
              = (inr resp, remote')
              /\ readAll (Body resp) = inr data
              /\ StatusCode resp = StatusOK).
Proof.
  intros rules st. unfold DeleteStreamRules, deleteRequest. io.
  destruct (Do _ (remote st)) as [[err|resp] remote'] eqn:HDo; cbn.
  - split; [eauto|]. split; [discriminate|].
    intros (resp & r & data & E & _). discriminate.
  - destruct (readAll (Body resp)) as [err|data] eqn:Hr; cbn.
    + split; [eauto|]. split; [discriminate|].
      intros (resp' & r & data & E & Hd & _). injection E as <- _. congruence.
    + destruct (StatusCode resp =? StatusOK) eqn:Hs; cbn.
      * split; [eauto|]. split; [|reflexivity]. intros _.
        exists resp, remote', data. apply Z.eqb_eq in Hs. auto.
      * split; [eauto|]. split; [discriminate|].
        intros (resp' & r & data' & E & _ & Hok). injection E as <- _.
        apply Z.eqb_neq in Hs. contradiction.
Qed.

(** X10. [CreateStreamRule] panics (index out of range on
    [streamRuleResponse.Rules[0]]) exactly when the answer has status
    StatusCreated and decodes, its [Rules] are empty, and it is not
    taken for a duplicate, that is, its created count is 1 or its
    [Errors] are empty. In no other case does the call panic. *)
Theorem CreateStreamRule_panics_iff :
  forall (options : list string) (st : State Remote),
    (exists msg, fst (CreateStreamRule Do options st) = Panic msg)
    <-> exists resp remote' srr,
          Do (createRequest (Token (client st)) options) (remote st)
          = (inr resp, remote')
          /\ StatusCode resp = StatusCreated
          /\ decodeRules (Body resp) = inr srr
          /\ Rules srr = []
          /\ (Created_ srr = 1 \/ Errors srr = []).
Proof.
  intros options st. unfold CreateStreamRule, createRequest. io.
  destruct (Do _ (remote st)) as [[err|resp] remote'] eqn:HDo; cbn.
  - split; [intros (msg & E); discriminate|].
    intros (resp & r & srr & E & _). discriminate.
  - destruct (StatusCode resp =? StatusCreated) eqn:Hs; cbn.
    + apply Z.eqb_eq in Hs.
      destruct (decodeRules (Body resp)) as [err|srr] eqn:Hd; cbn.
      * split; [intros (msg & E); discriminate|].
        intros (resp' & r & srr & E & _ & Hd' & _). injection E as <- _. congruence.
      * destruct (Created_ srr =? 1) eqn:Hc; cbn.
        -- apply Z.eqb_eq in Hc.
           destruct (Rules srr) as [|r0 rs] eqn:Hr; cbn.
           ++ split; [intros _|eauto].
              exists resp, remote', srr. auto 6.
           ++ split; [intros (msg & E); discriminate|].
              intros (resp' & r & srr' & E & _ & Hd' & Hr' & _).
              injection E as <- _. congruence.
        -- apply Z.eqb_neq in Hc.
           destruct (Errors srr) as [|e0 es] eqn:He; cbn.
           ++ destruct (Rules srr) as [|r0 rs] eqn:Hr; cbn.
              ** split; [intros _|eauto].
                 exists resp, remote', srr. rewrite He. auto 6.
              ** split; [intros (msg & E); discriminate|].
                 intros (resp' & r & srr' & E & _ & Hd' & Hr' & _).
                 injection E as <- _. congruence.
           ++ split; [intros (msg & E); discriminate|].
              intros (resp' & r & srr' & E & _ & Hd' & _ & [Hc'|He']);
                injection E as <- _;
                assert (srr' = srr) by congruence; subst srr'; congruence.
    + apply Z.eqb_neq in Hs.
      split; [intros (msg & E); discriminate|].
      intros (resp' & r & srr & E & Hok & _). injection E as <- _. contradiction.
Qed.

(** X11. When [CreateStreamRule] returns an error, the rule it
    returns with it is the rule it built from the options, without
    an ID, in every error path (request failed, status other than
    StatusCreated, answer not decodable); when it returns no error,
    the rule is the first entry of the [Errors] or of the [Rules] of
    a decoded answer of status StatusCreated. *)
Theorem CreateStreamRule_returned_rule :
  forall (options : list string) (st : State Remote) (rule : StreamRule),
    (forall err, fst (CreateStreamRule Do options st) = Ok (rule, Some err) ->
                 rule = mkStreamRule EmptyString (ruleBuilder options))
    /\ (fst (CreateStreamRule Do options st) = Ok (rule, None) ->
        exists resp remote' srr,
          Do (createRequest (Token (client st)) options) (remote st)
          = (inr resp, remote')
          /\ StatusCode resp = StatusCreated
          /\ decodeRules (Body resp) = inr srr
          /\ (hd_error (Errors srr) = Some rule \/ hd_error (Rules srr) = Some rule)).
Proof.
  intros options st rule. unfold CreateStreamRule, createRequest. io.
  destruct (Do _ (remote st)) as [[err|resp] remote'] eqn:HDo; cbn.
  - split; [intros e E; now injection E as <- _|discriminate].
  - destruct (StatusCode resp =? StatusCreated) eqn:Hs; cbn.
    + apply Z.eqb_eq in Hs.
      destruct (decodeRules (Body resp)) as [err|srr] eqn:Hd; cbn.
      * split; [intros e E; now injection E as <- _|discriminate].
      * destruct (negb (Created_ srr =? 1) && _);
          [destruct (Errors srr) as [|r0 rs] eqn:Hl
          |destruct (Rules srr) as [|r0 rs] eqn:Hl]; cbn;
          (split; [intros e E; discriminate|]); intros E; try discriminate;
          injection E as <-; exists resp, remote', srr; rewrite Hl; cbn; auto 6.
    + split; [intros e E; now injection E as <- _|discriminate].
Qed.

(** X12. The cleanup goroutine of [UnsubscribeStream] never panics
    and has nothing to return: whatever [DeleteStreamRule] gives, it
    ends normally, leaves the client struct as it was, and when the
    deletion fails with an error that error is written to the log
    and goes nowhere else. *)
Theorem orphanCleanup_swallows_failure :
  forall (ruleIsOrphaned : bool) (rule : StreamRule) (st : State Remote),
    fst (orphanCleanup Do ruleIsOrphaned rule st) = Ok tt
    /\ client (after (orphanCleanup Do ruleIsOrphaned rule) st) = client st
    /\ forall e,
         ruleIsOrphaned = true ->
         fst (DeleteStreamRule Do rule st) = Ok (Some e) ->
         effectsOf (orphanCleanup Do ruleIsOrphaned rule) st
         = [ELog (LogRule "removing orphaned rule " rule);
            ERequest (deleteRequest (Token (client st)) [rule_ID rule]);
            ELog (LogErr "Failed to remove orphaned rule: %s" e)].
Proof.
  intros b rule st.
  unfold effectsOf, after, orphanCleanup, DeleteStreamRule, DeleteStreamRules,
    deleteRequest.
  destruct b; io; [|split; [reflexivity|split; [reflexivity|discriminate]]].
  destruct (Do _ (remote st)) as [[err|resp] remote'] eqn:HDo; cbn.
  - split; [reflexivity|]. split; [reflexivity|]. intros e _ E. injection E as <-.
    now rewrite <- !app_assoc, skipn_length_app.
  - destruct (readAll (Body resp)) as [err|data]; cbn.
    + split; [reflexivity|]. split; [reflexivity|]. intros e _ E. injection E as <-.
      now rewrite <- !app_assoc, skipn_length_app.
    + destruct (negb (StatusCode resp =? StatusOK)); cbn;
        (split; [reflexivity|]); (split; [reflexivity|]); intros e _ E;
        [injection E as <-|discriminate].
      now rewrite <- !app_assoc, skipn_length_app.
Qed.

(** X13. [SearchRecent] never panics; it returns either an error
    and no tweets, or no error and the tweets of
    [tweetsFromSearchResult] on the decoded answer, and the latter
    exactly when the URL is accepted, the request is answered and the
    answer decodes. *)
Theorem SearchRecent_result :
  forall (options : list string) (st : State Remote),
    (exists tweets err,
        fst (SearchRecent Do newRequestError QueryEscape decodeSearch options st)
        = Ok (tweets, err)
        /\ (err <> None -> tweets = []))
    /\ forall tweets,
         fst (SearchRecent Do newRequestError QueryEscape decodeSearch options st)
         = Ok (tweets, None)
         <-> newRequestError (searchURL (QueryEscape (queryBuilder options))) = None
             /\ exists resp remote' response,
                  Do (getRequest (Token (client st))
                                 (searchURL (QueryEscape (queryBuilder options))))
                     (remote st) = (inr resp, remote')
                  /\ decodeSearch (Body resp) = inr response
                  /\ tweets = tweetsFromSearchResult response.
Proof.
  intros options st. unfold SearchRecent, getRequest.
  destruct (newRequestError _) as [e0|]; io.
  - split; [exists [], (Some e0); auto|].
    intros tweets. split; [discriminate|]. intros [E _]. discriminate.
  - destruct (Do _ (remote st)) as [[err|resp] remote'] eqn:HDo; cbn.
    + split; [exists [], (Some err); auto|].
      intros tweets. split; [discriminate|].
      intros [_ (resp & r & response & E & _)]. discriminate.
    + destruct (decodeSearch (Body resp)) as [err|response] eqn:Hd; cbn.
      * split; [exists [], (Some err); auto|].
        intros tweets. split; [discriminate|].
        intros [_ (resp' & r & response & E & Hd' & _)]. injection E as <- _.
        congruence.
      * split; [exists (tweetsFromSearchResult response), None; split;
                  [reflexivity|congruence]|].
        intros tweets. split.
        -- intros E. injection E as <-. split; [reflexivity|].
           exists resp, remote', response. auto.
        -- intros [_ (resp' & r & response' & E & Hd' & ->)].
           injection E as <- _. congruence.
Qed.

End CallsAndStatus.

(** ** UnsubscribeStream: order, and the second call *)

Lemma NoDup_split_unique {A : Type} (s : A) (l1 l2 k1 k2 : list A) :
  NoDup (l1 ++ s :: l2) -> l1 ++ s :: l2 = k1 ++ s :: k2 -> l1 = k1 /\ l2 = k2.
Proof.
  revert k1; induction l1 as [|x l1 IH]; intros k1 Hnd E;
    destruct k1 as [|y k1]; cbn in *.
  - injection E as E. auto.
  - injection E as Eh Et. exfalso.
    apply NoDup_cons_iff in Hnd as [Hnot _]. apply Hnot. rewrite Et.
    apply in_app_iff. right. now left.
  - injection E as Eh Et. exfalso.
    apply NoDup_cons_iff in Hnd as [Hnot _]. apply Hnot. rewrite Eh.
    apply in_app_iff. right. now left.
  - injection E as Eh Et. apply NoDup_cons_iff in Hnd as [_ Hnd].
    destruct (IH k1 Hnd Et) as [-> ->]. now rewrite Eh.
Qed.

(** X14. [SubscribeStream] puts the new subscription, with a channel
    that no earlier [SubscribeStream] returned, at the end of the
    Subscriber Set, and does nothing else: it does not start the
    stream, the running flag stays as it is and no effect is
    recorded. [UnsubscribeStream] of a subscription of a set without
    duplicates takes out that one entry and keeps all others in their
    order. *)
Theorem subscribers_keep_their_order :
  forall (Remote : Type) (st : State Remote),
    (forall rule,
        fst (SubscribeStream rule st) = Ok (mkSub (Some (made st)) rule)
        /\ streamSubscribers (client (after (SubscribeStream rule) st))
           = streamSubscribers (client st) ++ [mkSub (Some (made st)) rule]
        /\ made (after (SubscribeStream rule) st) = S (made st)
        /\ streaming (client (after (SubscribeStream rule) st))
           = streaming (client st)
        /\ effectsOf (SubscribeStream rule) st = [])
    /\ forall before s rest,
         NoDup (streamSubscribers (client st)) ->
         streamSubscribers (client st) = before ++ s :: rest ->
         streamSubscribers (client (after (UnsubscribeStream s) st)) = before ++ rest.
Proof.
  intros Remote st. split.
  - intros rule. unfold effectsOf, after. rewrite SubscribeStream_run. cbn.
    rewrite skipn_all. auto.
  - intros before s rest Hnd Hs. rewrite UnsubscribeStream_subscribers.
    assert (Hin : In s (streamSubscribers (client st))).
    { rewrite Hs. apply in_app_iff. right. now left. }
    destruct (remaining_present s _ Hnd Hin) as (l1 & l2 & Hs' & ->).
    rewrite Hs' in Hnd. rewrite Hs' in Hs.
    destruct (NoDup_split_unique s l1 l2 before rest Hnd Hs) as [-> ->].
    reflexivity.
Qed.


(** ** A caller that unsubscribes what it subscribed *)

Lemma NoDup_map_injective {A B : Type} (f : A -> B) (l : list A) (a b : A) :
  NoDup (map f l) -> In a l -> In b l -> f a = f b -> a = b.
Proof.
  induction l as [|x l IH]; cbn; intros Hnd Ha Hb E; [destruct Ha|].
  apply NoDup_cons_iff in Hnd as [Hnot Hnd].
  destruct Ha as [<-|Ha], Hb as [<-|Hb]; auto.
  - exfalso. apply Hnot. rewrite E. now apply in_map.
  - exfalso. apply Hnot. rewrite <- E. now apply in_map.
Qed.

Lemma SubscribeStream_safe {Remote : Type} (rule : StreamRule)
      (issued : list StreamSubscription) (st : State Remote) :
  safeState issued st ->
  safeState (mkSub (Some (made st)) rule :: issued) (snd (SubscribeStream rule st)).
Proof.
  intros (Hch & Hmade & Hnd & Hsub & Hcl & Hopen).
  rewrite SubscribeStream_run. unfold safeState. cbn.
  split; [|split; [|split; [|split; [|split]]]].
  - constructor; [|exact Hch]. intros Hin. apply in_map_iff in Hin as (s & Hs & Hin).
    destruct (Hmade s Hin) as (n & Hn & Hlt). rewrite Hn in Hs.
    injection Hs as ->. lia.
  - intros s [<-|Hs].
    + exists (made st). split; [reflexivity|lia].
    + destruct (Hmade s Hs) as (n & Hn & Hlt). exists n. split; [exact Hn|lia].
  - apply NoDup_app; [exact Hnd|repeat constructor; intros []|].
    intros x Hx [<-|[]]. destruct (Hmade _ (Hsub _ Hx)) as (n & Hn & Hlt).
    cbn in Hn. injection Hn as <-. lia.
  - intros s Hs. apply in_app_iff in Hs as [Hs|[<-|[]]]; [right; auto|now left].
  - intros n Hn. specialize (Hcl n Hn). lia.
  - intros s n Hs Hn Hc. apply in_app_iff in Hs as [Hs|[<-|[]]].
    + exact (Hopen s n Hs Hn Hc).
    + cbn in Hn. injection Hn as <-. specialize (Hcl _ Hc). lia.
Qed.

Lemma UnsubscribeStream_safe {Remote : Type} (u : StreamSubscription)
      (issued : list StreamSubscription) (st : State Remote) :
  safeState issued st -> In u issued ->
  safeState issued (after (UnsubscribeStream u) st).
Proof.
  intros (Hch & Hmade & Hnd & Hsub & Hcl & Hopen) Hu.
  destruct (remaining_spec u _ Hnd) as [Hnd' Hrem].
  destruct (Hmade u Hu) as (k & Hk & Hklt).
  unfold after. rewrite UnsubscribeStream_run. unfold safeState. cbn. rewrite Hk.
  split; [exact Hch|]. split; [exact Hmade|]. split; [exact Hnd'|].
  split; [intros s Hs; apply Hsub, Hrem, Hs|].
  split.
  - intros n Hn. destruct (closable (Some k) (closed st)); [|auto].
    destruct Hn as [<-|Hn]; auto.
  - intros s n Hs Hn Hc. apply Hrem in Hs as [Hs Hne].
    assert (Hnk : n <> k).
    { intros ->. apply Hne.
      apply (NoDup_map_injective Tweets issued s u Hch (Hsub s Hs) Hu). congruence. }
    destruct (closable (Some k) (closed st)).
    + destruct Hc as [E|Hc]; [congruence|]. exact (Hopen s n Hs Hn Hc).
    + exact (Hopen s n Hs Hn Hc).
Qed.

(** The invariant of a disciplined run. *)
Lemma runCalls_safe {Remote : Type} (calls : list Call) :
  forall (issued : list StreamSubscription) (st : State Remote),
    safeState issued st ->
    disciplined issued (snd (runCalls calls st)) ->
    exists issued', safeState issued' (fst (runCalls calls st)).
Proof.
  induction calls as [|[rule|u] rest IH]; intros issued st Hsafe Hd.
  - exists issued. exact Hsafe.
  - cbn [runCalls] in *. rewrite SubscribeStream_run in *.
    pose proof (SubscribeStream_safe rule issued st Hsafe) as H1.
    rewrite SubscribeStream_run in H1. cbn [snd] in H1.
    specialize (IH _ _ H1).
    destruct (runCalls rest _) as [st'' h]. cbn [fst snd disciplined] in *.
    apply IH, Hd.
  - cbn [runCalls] in *.
    specialize (IH issued (after (UnsubscribeStream u) st)).
    destruct (runCalls rest _) as [st'' h]. cbn [fst snd disciplined] in *.
    destruct Hd as [Hu Hd]. apply IH; [|exact Hd].
    now apply UnsubscribeStream_safe.
Qed.

(** X16. With a caller that gives [UnsubscribeStream] only
    subscriptions that [SubscribeStream] returned to it, starting
    from an empty Subscriber Set with no channel closed: after any
    sequence of calls, every send of the fan-out goes to a channel
    that was made and is not closed, so the fan-out never panics on
    a closed channel and never blocks on a nil one. *)
Theorem fanOut_never_sends_on_closed_channel :
  forall (Remote : Type) (calls : list Call)
         (token : string) (isStreaming enableAll : bool) (r : Remote)
         (madeSoFar : nat) (tr : list Effect),
    let st0 := mkState (mkClient token [] isStreaming enableAll) r madeSoFar [] tr in
    let final := fst (runCalls calls st0) in
    disciplined [] (snd (runCalls calls st0)) ->
    forall (t t' : Tweet) (c : chan),
      In (ESend c t') (effectsOf (fanOut t) final) ->
      exists n, c = Some n /\ (n < made final)%nat /\ ~ In n (closed final).
Proof.
  intros Remote calls token isStreaming enableAll r madeSoFar tr st0 final Hd t t' c Hin.
  assert (Hsafe0 : safeState [] st0).
  { unfold safeState; cbn. repeat split; try constructor; intros; contradiction. }
  destruct (runCalls_safe calls [] st0 Hsafe0 Hd)
    as (issued & _ & Hmade & _ & Hsub & _ & Hopen).
  fold final in Hmade, Hsub, Hopen.
  rewrite fanOut_effects in Hin. unfold deliver in Hin.
  apply in_flat_map in Hin as (sub & Hs & Hin).
  apply in_sendsTo in Hin as [_ E]. injection E as -> _.
  destruct (Hmade sub (Hsub sub Hs)) as (n & Hn & Hlt).
  exists n. split; [exact Hn|]. split; [exact Hlt|]. exact (Hopen sub n Hs Hn).
Qed.


(** ** Fan-out: how often, and in which order *)










(** ** The decode loop on a whole stream *)

Lemma effectsOf_growsTrace {Remote A : Type} (m : IO Remote A) (st : State Remote) :
  growsTrace m -> trace (after m st) = trace st ++ effectsOf m st.
Proof.
  intros Hm. destruct (Hm st) as (added & H). unfold effectsOf.
  now rewrite H, skipn_length_app.
Qed.

(** One turn of the loop: what it adds, and the rest of the loop in
    the state it leaves. *)
Lemma decodeLoop_cons_effects {Remote : Type}
      (result : streamResponse) (err : option error)
      (rest : list (streamResponse * option error))
      (selecting : bool) (st : State Remote) :
  exists st' : State Remote,
    client st' = client st
    /\ effectsOf (decodeLoop ((result, err) :: rest) selecting) st
       = match err, selecting with
         | Some e, false => [ESendErr e]
         | _, _ =>
             (match err with Some e => [ESendErr e] | None => [] end)
             ++ (if EnableAllTweetsChannel (client st)
                 then [ESendAll (decoded result)] else [])
             ++ [ESendTweet (decoded result)]
             ++ effectsOf (decodeLoop rest
                             (match err with Some _ => false | None => selecting end))
                          st'
         end.
Proof.
  unfold effectsOf at 1. unfold after, decoded. cbn [decodeLoop].
  destruct err as [e|]; [destruct selecting|]; io;
    try (exists st; split; [reflexivity|]; cbn; apply skipn_length_app);
    destruct (EnableAllTweetsChannel (client st)); cbn;
    match goal with
    | |- context [decodeLoop rest ?sel ?s] =>
        exists s; split; [reflexivity|];
        pose proof (effectsOf_growsTrace (decodeLoop rest sel) s
                      (decodeLoop_growsTrace rest sel)) as Hg;
        unfold after in Hg; rewrite !Hg; cbn [trace];
        rewrite skipn_length_app, <- !app_assoc, skipn_length_app; reflexivity
    end.
Qed.

(** X20. On a stream of which every record decodes, the decode loop
    sends the converted tweets on the tweet channel one by one in the
    order of the stream (each first on [StreamedTweets] when
    [EnableAllTweetsChannel] is set, and never there when it is not),
    sends nothing on the error channel, and closes the tweet channel
    at the end. *)
Theorem decodeLoop_without_errors :
  forall (Remote : Type) (records : list (streamResponse * option error))
         (selecting : bool) (st : State Remote),
    (forall r, In r records -> snd r = None) ->
    effectsOf (decodeLoop records selecting) st
    = flat_map (fun r => (if EnableAllTweetsChannel (client st)
                          then [ESendAll (decoded (fst r))] else [])
                         ++ [ESendTweet (decoded (fst r))]) records
      ++ [ECloseTweetChan].
Proof.
  intros Remote records selecting. induction records as [|[result err] rest IH];
    intros st Hok.
  - unfold effectsOf, after. cbn. apply skipn_length_app.
  - assert (Herr : err = None) by (apply (Hok (result, err)); now left).
    subst err.
    destruct (decodeLoop_cons_effects result None rest selecting st)
      as (st' & Hcl & ->).
    rewrite (IH st') by (intros r Hr; apply Hok; now right).
    cbn [flat_map fst app]. rewrite Hcl, <- !app_assoc. reflexivity.
Qed.

Lemma close_not_in_turn (err : option error) (enableAll : bool) (t : Tweet)
      (later : list Effect) :
  In ECloseTweetChan
     ((match err with Some e => [ESendErr e] | None => [] end)
      ++ (if enableAll then [ESendAll t] else [])
      ++ [ESendTweet t] ++ later)
  <-> In ECloseTweetChan later.
Proof.
  rewrite !in_app_iff. destruct err, enableAll; cbn; intuition discriminate.
Qed.

(** X21. The decode loop closes the tweet channel, which is what ends
    the forwarding goroutine, exactly when at most one record fails
    to decode and the [select] of [stream] is there to take that
    error (no record at all when the [select] has gone): a further
    failure leaves the loop blocked on the error channel, the tweet
    channel open and both goroutines alive. *)
Theorem decodeLoop_closes_iff_few_errors :
  forall (Remote : Type) (records : list (streamResponse * option error))
         (selecting : bool) (st : State Remote),
    In ECloseTweetChan (effectsOf (decodeLoop records selecting) st)
    <-> (errorCount records <= if selecting then 1 else 0)%nat.
Proof.
  intros Remote records. induction records as [|[result err] rest IH];
    intros selecting st.
  - unfold effectsOf, after. cbn. rewrite skipn_length_app. cbn.
    split; [intros _; destruct selecting; lia|auto].
  - destruct (decodeLoop_cons_effects result err rest selecting st)
      as (st' & _ & ->).
    unfold errorCount in *. cbn [filter snd].
    destruct err as [e|]; [destruct selecting|]; cbn [length].
    + rewrite (close_not_in_turn (Some e)), IH. lia.
    + cbn [In]. split; [intros [H|[]]; discriminate|lia].
    + rewrite (close_not_in_turn None), IH. reflexivity.
Qed.

(** ** stream: what it leaves behind *)

(** X22. However a run of [stream] ends (the request fails, the
    [select] takes an error, the [select] takes a stop), it returns
    without a panic with the running flag cleared and the request
    cancelled once; the response body is closed exactly when the
    request was answered, and before the request is cancelled; the
    decode and forwarding goroutines are started only then; and the
    Subscriber Set is not touched. *)
Theorem stream_cleans_up :
  forall (Remote : Type) (Do : Request -> Remote -> (error + Response) * Remote)
         (sel : Selected) (st : State Remote),
    fst (stream Do sel st) = Ok tt
    /\ streaming (client (after (stream Do sel) st)) = false
    /\ streamSubscribers (client (after (stream Do sel) st))
       = streamSubscribers (client st)
    /\ effectsOf (stream Do sel) st
       = match fst (Do (getRequest (Token (client st)) streamURL) (remote st)) with
         | inl err =>
             [ELog (LogMsg "Stream()");
              ERequest (getRequest (Token (client st)) streamURL);
              ELog (LogErr "failed to fetch stream %s" err);
              ECancelRequest;
              ELog (LogMsg "stop streaming")]
         | inr _ =>
             [ELog (LogMsg "Stream()");
              ERequest (getRequest (Token (client st)) streamURL);
              EGo GoDecode; EGo GoFanOut;
              ELog (match sel with
                    | SelErr err => LogErr "[Stream] got error, exiting: " err
                    | SelStop => LogMsg "[Stream] got stop signal, exiting..."
                    end);
              ECloseBody; ECancelRequest;
              ELog (LogMsg "stop streaming")]
         end.
Proof.
  intros Remote Do sel st.
  unfold effectsOf, after, stream, streamConnect, streamSelect, streamDeferred,
    getRequest. io.
  destruct (Do _ (remote st)) as [[err|resp] remote']; [|destruct sel]; cbn;
    rewrite <- !app_assoc, skipn_length_app; auto.
Qed.

(** ** The stop send with nobody to take it *)

Lemma stopped_runs_nth (rs : list Phase) (i : nat) :
  Forall (fun p => p = Stopped) rs ->
  nth_error rs i = None \/ nth_error rs i = Some Stopped.
Proof.
  intros H. destruct (nth_error rs i) as [p|] eqn:E; [right|now left].
  apply nth_error_In in E. rewrite Forall_forall in H. now rewrite (H p E).
Qed.

(** X23. [UnsubscribeStream] of the only subscriber while no run of
    [stream] is active (never started, or returned) does not return:
    it stops at the send on the unbuffered stop channel with the lock
    held, and from there no schedule makes a single move:
    [SubscribeStream], [UnsubscribeStream] and [StartStream] need the
    lock, and there is no run of [stream] to take the stop and none
    can be started; the subscriber's channel is not closed. *)
Theorem last_unsubscribe_without_run_blocks_forever :
  forall (Remote : Type) (Do : Request -> Remote -> (error + Response) * Remote)
         (c : Config Remote) (s : StreamSubscription),
    waiting c = None ->
    streamSubscribers (client (state c)) = [s] ->
    Forall (fun p => p = Stopped) (runs c) ->
    exists c1,
      step Do (LUnsubscribe s) c = Some c1
      /\ waiting c1 = Some s
      /\ closed (state c1) = closed (state c)
      /\ forall (ls : list Label), ls <> [] -> steps Do ls c1 = None.
Proof.
  intros Remote Do c s Hw Hs Hruns.
  eexists. split.
  { cbn [step]. rewrite Hw, (unsubscribeLocked_last s (state c) Hs). reflexivity. }
  split; [reflexivity|]. split; [reflexivity|].
  intros [|l ls] Hne; [congruence|]. cbn [steps].
  replace (step Do l _) with (@None (Config Remote)); [reflexivity|].
  symmetry. destruct l as [rule|u|i| |i|i|i e]; cbn [step waiting runs];
    try reflexivity;
    destruct (stopped_runs_nth (runs c) i Hruns) as [-> | ->]; reflexivity.
Qed.

(** ** The stream's moves and the subscribers *)

Lemma streamConnect_frame {Remote : Type}
      (Do : Request -> Remote -> (error + Response) * Remote) (st : State Remote) :
  made (snd (streamConnect Do st)) = made st
  /\ closed (snd (streamConnect Do st)) = closed st.
Proof.
  unfold streamConnect. io.
  destruct (Do _ (remote st)) as [[err|resp] remote']; cbn; auto.
Qed.

(** X24. Starting the stream, its request being answered or failing,
    and its end by a stop ([StopStream]) or by a decode error change
    nothing for the subscribers: the Subscriber Set stays as it is and
    no channel is made or closed. When the stream ends, subscribers
    are neither removed nor told; their channels stay open and
    silent. *)
Theorem stream_moves_leave_subscribers :
  forall (Remote : Type) (Do : Request -> Remote -> (error + Response) * Remote)
         (l : Label) (c c' : Config Remote),
    movesTheStream l = true ->
    step Do l c = Some c' ->
    streamSubscribers (client (state c')) = streamSubscribers (client (state c))
    /\ closed (state c') = closed (state c)
    /\ made (state c') = made (state c).
Proof.
  intros Remote Do l c c' Hl Hstep.
  destruct l as [rule|u|i| |i|i|i e]; try discriminate; cbn [step] in Hstep.
  - destruct (waiting c); [discriminate|]. injection Hstep as <-.
    cbn [state]. unfold after. rewrite StartStream_run.
    destruct (streaming (client (state c))); auto.
  - destruct (nth_error (runs c) i) as [[| |]|]; try discriminate.
    injection Hstep as <-. cbn [state]. unfold after, StopStream.
    unfold bind at 1. cbn [emit]. rewrite leaveSelect_run. auto.
  - destruct (nth_error (runs c) i) as [[| |]|]; try discriminate.
    destruct (streamConnect_client Do (state c)) as [Hcl _].
    destruct (streamConnect_frame Do (state c)) as [Hm Hc].
    destruct (streamConnect Do (state c)) as [[[resp|]|msg] st'];
      cbn [fst snd] in *; injection Hstep as <-; cbn [state].
    + unfold after. cbn. rewrite Hcl, Hm, Hc. auto.
    + unfold after. rewrite streamDeferred_false_run. cbn.
      rewrite Hcl, Hm, Hc. auto.
    + unfold after. rewrite streamDeferred_false_run. cbn.
      rewrite Hcl, Hm, Hc. auto.
  - destruct (nth_error (runs c) i) as [[| |]|]; try discriminate.
    injection Hstep as <-. cbn [state]. unfold after.
    rewrite leaveSelect_run. auto.
Qed.

(** ** UnsubscribeStream on a subscription it does not know *)



(** ** The decode loop after a failure *)

(** X26. Whatever the stream and the state: when the decoding of a
    record fails while the [select] of [stream] is there to take the
    error, the loop sends the error and then goes on with the same
    record: it sends the tweet converted from what the failed
    decoding left in [result] (on [StreamedTweets] too when that is
    enabled) before it turns to the rest of the stream. *)
Theorem decodeLoop_sends_tweet_of_failed_record :
  forall (Remote : Type) (result : streamResponse) (e : error)
         (rest : list (streamResponse * option error)) (st : State Remote),
    exists later,
      effectsOf (decodeLoop ((result, Some e) :: rest) true) st
      = ESendErr e
        :: (if EnableAllTweetsChannel (client st)
            then [ESendAll (decoded result)] else [])
        ++ ESendTweet (decoded result) :: later.
Proof.
  intros Remote result e rest st.
  destruct (decodeLoop_cons_effects result (Some e) rest true st) as (st' & _ & ->).
  eexists. reflexivity.
Qed.

(** ** The further properties at concrete inputs *)

(** [convertToTweet_author_first_match]: the author of a tweet of
    user "1" against includes that list that user. *)
Lemma convertToTweet_author_witness :
  TweetAuthor (convertToTweet (sr_Tweet exGoodRecord) exIncludes None)
  = mkAuthor "one" "@one" "pic" true "1".
Proof.
  apply (convertToTweet_author_first_match
           (sr_Tweet exGoodRecord) exIncludes None [] [] exUser);
    [reflexivity|reflexivity|intros v []].
Defined.

(** [fanOut_never_sends_on_closed_channel] after two subscriptions
    and the unsubscription of the first: a tweet matching both rules
    goes to channel 1 only, which is open. *)
Lemma fanOut_never_sends_on_closed_channel_witness :
  disciplined [] (snd (runCalls exCalls exState))
  /\ exists n,
       Some 1%nat = Some n
       /\ (n < made (fst (runCalls exCalls exState)))%nat
       /\ ~ In n (closed (fst (runCalls exCalls exState))).
Proof.
  assert (Hd : disciplined [] (snd (runCalls exCalls exState))).
  { cbn. split; [right; now left|exact I]. }
  split; [exact Hd|].
  apply (fanOut_never_sends_on_closed_channel
           Server exCalls "token" false false emptyServer 0 [] Hd
           (convertToTweet (sr_Tweet exGoodRecord) exIncludes
                           (Some [exRule1; exRule2]))
           (convertToTweet (sr_Tweet exGoodRecord) exIncludes
                           (Some [exRule1; exRule2]))
           (Some 1%nat)).
  vm_compute. left. reflexivity.
Defined.



(** [decodeLoop_without_errors] on a stream of one record. *)
Lemma decodeLoop_without_errors_witness :
  effectsOf (decodeLoop [(exGoodRecord, None)] true) exSubscribed
  = [ESendTweet exGoodTweet; ECloseTweetChan].
Proof.
  apply (decodeLoop_without_errors Server [(exGoodRecord, None)] true exSubscribed).
  intros r [<-|[]]. reflexivity.
Defined.

(** [last_unsubscribe_without_run_blocks_forever] for a client that
    subscribed and never started the stream. *)
Lemma last_unsubscribe_blocks_witness :
  exists c1,
    step serverDo (LUnsubscribe exSub1) exIdle = Some c1
    /\ waiting c1 = Some exSub1
    /\ closed (state c1) = closed (state exIdle)
    /\ forall ls, ls <> [] -> steps serverDo ls c1 = None.
Proof.
  apply (last_unsubscribe_without_run_blocks_forever Server serverDo exIdle exSub1).
  - reflexivity.
  - reflexivity.
  - constructor.
Defined.

(** [stream_moves_leave_subscribers] for a [StopStream] taken by the
    run of a client with one subscriber. *)
Lemma stream_moves_leave_subscribers_witness :
  exists c',
    step serverDo (LStopStream 0) exStreaming = Some c'
    /\ streamSubscribers (client (state c')) = [exSub1]
    /\ closed (state c') = []
    /\ made (state c') = 1%nat.
Proof.
  destruct (step serverDo (LStopStream 0) exStreaming) as [c'|] eqn:H.
  - exists c'. split; [reflexivity|].
    exact (stream_moves_leave_subscribers Server serverDo (LStopStream 0)
             exStreaming c' eq_refl H).
  - vm_compute in H. discriminate H.
Defined.

